(** * CE320 fuzzy irrigation controller: model and verified properties

  The development embeds the three source units of the repository
  (FuzzyLogic.ino, FuzzyDisplay.cpp, FuzzyDisplay.h) together with the
  parts of the Arduino core and of the fuzzy-logic library they call.

  Numbers.  A value held by a C [float] variable is [NaN] or the exact
  rational it stands for; the infinities (which neither the DHT driver
  nor the ADC produces) are left out.  Where the code computes with
  floating-point numbers (the subtraction and the comparisons with
  double literals in [updateValues], the soil moisture formula, the
  initial -999.9 of the display), the operations are those of IEEE 754
  as the Standard Library specifies them ([SpecFloat]), at 24 bits for
  [float] and 53 bits for [double], rounding to nearest even.
  [unsigned long] is a [Z] reduced modulo [2^32]; [int] and [long] values
  stay far from their bounds at every call site and are plain [Z]. *)

From Stdlib Require Import QArith Qminmax Qabs Qround Lqa ZArith Lia List String Bool.
From Stdlib Require Import SpecFloat.
Import ListNotations.
Open Scope Q_scope.

(** ** Arduino core *)

Module Arduino.

Inductive float : Type :=
| NaN
| Fin (q : Q).

Definition isnan (f : float) : bool :=
  match f with NaN => true | Fin _ => false end.

Definition Qltb (x y : Q) : bool := negb (Qle_bool y x).

(** ** IEEE 754 arithmetic

    [binary32] and [binary64] round a rational to the nearest [float] and
    [double] (ties to even): the correctly rounded quotient of the
    numerator by the denominator.  [to_float] and [to_double] convert
    between the two formats; [to_double] is exact. *)
Definition integer (n : Z) : spec_float :=
  match n with
  | Z0 => S754_zero false
  | Zpos p => S754_finite false p 0
  | Zneg p => S754_finite true p 0
  end.

Definition binary32 (q : Q) : spec_float :=
  SFdiv 24 128 (integer (Qnum q)) (integer (Zpos (Qden q))).

Definition binary64 (q : Q) : spec_float :=
  SFdiv 53 1024 (integer (Qnum q)) (integer (Zpos (Qden q))).

Definition to_float (x : spec_float) : spec_float :=
  match x with
  | S754_finite s m e => binary_round 24 128 s m e
  | _ => x
  end.

Definition to_double (x : spec_float) : spec_float :=
  match x with
  | S754_finite s m e => binary_round 53 1024 s m e
  | _ => x
  end.

(** The IEEE value of a stored [float], and the stored form of an IEEE
    value.  An infinity has no stored form in this model; none is ever
    stored. *)
Definition ieee (f : float) : spec_float :=
  match f with
  | NaN => S754_nan
  | Fin q => binary32 q
  end.

Definition stored (x : spec_float) : float :=
  match x with
  | S754_zero _ => Fin 0
  | S754_finite s m e =>
      Fin ((if s then - inject_Z (Zpos m) else inject_Z (Zpos m)) * Qpower 2 e)
  | S754_infinity _ => NaN
  | S754_nan => NaN
  end.

(** Float arithmetic used by the display.  [fsub] is the [float]
    subtraction, [fabs] the absolute value; [fgt x k] is [x > k] and
    [feq x k] is [x == k] for a [float] [x] and a [double] literal [k]:
    the float is converted to [double] and the two are compared. *)
Definition fsub (x y : float) : spec_float := SFsub 24 128 (ieee x) (ieee y).

Definition fabs (x : spec_float) : spec_float := SFabs x.

Definition fgt (x : spec_float) (k : Q) : bool := SFltb (binary64 k) (to_double x).

Definition feq (x : float) (k : Q) : bool := SFeqb (to_double (ieee x)) (binary64 k).

(** [constrain] on a [float] and two [double] bounds, as the macro
    expands: the result is a [double]. *)
Definition fconstrain (amt low high : spec_float) : spec_float :=
  if SFltb (to_double amt) low then low
  else if SFltb high (to_double amt) then high
  else to_double amt.

(** Modelled from the spec: the Arduino core is not under src/; this is
    its macro [constrain(amt,low,high)], namely
    [((amt)<(low)?(low):((amt)>(high)?(high):(amt)))], which the claims
    name. *)
Definition constrain (amt low high : Q) : Q :=
  if Qltb amt low then low
  else if Qltb high amt then high
  else amt.

(** Conversion of a float argument to [long]: truncation toward zero. *)
Definition to_long (q : Q) : Z := Z.quot (Qnum q) (Zpos (Qden q)).

(** Modelled from the spec: the Arduino core is not under src/; this is
    its function [long map(long x, long in_min, long in_max, long
    out_min, long out_max)], with C's truncating division. *)
Definition map (x in_min in_max out_min out_max : Z) : Z :=
  (Z.quot ((x - in_min) * (out_max - out_min)) (in_max - in_min) + out_min)%Z.

(** [unsigned long] subtraction. *)
Definition ulong_sub (x y : Z) : Z := ((x - y) mod 2 ^ 32)%Z.

End Arduino.
Export Arduino.

(** ** The fuzzy-logic library (Fuzzy.h) *)

Module FuzzyLib.

(** [new FuzzySet(a, b, c, d)]; the name stands for the identity of the
    heap object. *)
Record FuzzySet : Type := mkFuzzySet
  { setName : string;
    pointA : Q;
    pointB : Q;
    pointC : Q;
    pointD : Q }.

Definition wellFormed (s : FuzzySet) : Prop :=
  pointA s <= pointB s /\ pointB s <= pointC s /\ pointC s <= pointD s.

Definition sameSet (s t : FuzzySet) : bool := String.eqb (setName s) (setName t).

(** Modelled from the spec: the library that evaluates a fuzzy set is not
    under src/.  The degree of membership is 0 below [a] and above [d],
    1 on the plateau [[b,c]], a linear ramp from 0 to 1 between [a] and
    [b] and a linear ramp from 1 to 0 between [c] and [d]. *)
Definition membership (s : FuzzySet) (x : Q) : Q :=
  if Qltb x (pointA s) then 0
  else if Qltb (pointD s) x then 0
  else if Qle_bool (pointB s) x && Qle_bool x (pointC s) then 1
  else if Qltb x (pointB s) then (x - pointA s) / (pointB s - pointA s)
  else (pointD s - x) / (pointD s - pointC s).


(** A rule antecedent.  [new FuzzyRuleAntecedent()] is [Unjoined];
    [joinSingle] and [joinWithAND] give it its shape.
    Modelled from the spec: a leaf is one fuzzy set, paired with the
    input variable the set was registered on, and an internal node is
    the AND of two antecedents. *)
Inductive FuzzyRuleAntecedent : Type :=
| Unjoined
| Leaf (s : FuzzySet)
| And (l r : FuzzyRuleAntecedent).

Definition joinSingle (s : FuzzySet) : FuzzyRuleAntecedent := Leaf s.

Definition joinWithAND (s1 s2 : FuzzySet) : FuzzyRuleAntecedent :=
  And (Leaf s1) (Leaf s2).

(** The overload of [joinWithAND] that takes an antecedent and a set. *)
Definition joinWithAND_nested (a : FuzzyRuleAntecedent) (s : FuzzySet)
  : FuzzyRuleAntecedent :=
  And a (Leaf s).

Fixpoint leaves (a : FuzzyRuleAntecedent) : list FuzzySet :=
  match a with
  | Unjoined => []
  | Leaf s => [s]
  | And l r => leaves l ++ leaves r
  end.

(** [FuzzyInput] and [FuzzyOutput]: an index, the registered sets and the
    crisp value (last value set for an input, last value produced for an
    output). *)
Record FuzzyIO : Type := mkFuzzyIO
  { index : Z;
    fuzzySets : list FuzzySet;
    crisp : option Q }.

Definition addFuzzySet (io : FuzzyIO) (s : FuzzySet) : FuzzyIO :=
  mkFuzzyIO (index io) (fuzzySets io ++ [s]) (crisp io).

(** [new FuzzyRule(index, antecedent, consequent)], the consequent
    holding the one output set given to [addOutput]. *)
Record FuzzyRule : Type := mkFuzzyRule
  { ruleIndex : Z;
    antecedent : FuzzyRuleAntecedent;
    consequent : FuzzySet }.

(** Modelled from the spec: what [defuzzify] returns when no rule fired
    is either the last output held or the midpoint of the universe; the
    choice and the number of sample points are configuration. *)
Inductive Fallback : Type := HoldLast | Midpoint.

Record Fuzzy : Type := mkFuzzy
  { fuzzyInputs : list FuzzyIO;
    fuzzyOutputs : list FuzzyIO;
    fuzzyRules : list FuzzyRule;
    lastDegrees : list (string * Q);
    resolution : nat;
    fallback : Fallback }.

Definition newFuzzy (n : nat) (fb : Fallback) : Fuzzy :=
  mkFuzzy [] [] [] [] n fb.

Definition addFuzzyInput (f : Fuzzy) (io : FuzzyIO) : Fuzzy :=
  mkFuzzy (fuzzyInputs f ++ [io]) (fuzzyOutputs f) (fuzzyRules f)
          (lastDegrees f) (resolution f) (fallback f).

Definition addFuzzyOutput (f : Fuzzy) (io : FuzzyIO) : Fuzzy :=
  mkFuzzy (fuzzyInputs f) (fuzzyOutputs f ++ [io]) (fuzzyRules f)
          (lastDegrees f) (resolution f) (fallback f).

Definition addFuzzyRule (f : Fuzzy) (r : FuzzyRule) : Fuzzy :=
  mkFuzzy (fuzzyInputs f) (fuzzyOutputs f) (fuzzyRules f ++ [r])
          (lastDegrees f) (resolution f) (fallback f).

Definition setCrisp (i : Z) (x : Q) (ios : list FuzzyIO) : list FuzzyIO :=
  List.map (fun io => if (index io =? i)%Z
                      then mkFuzzyIO (index io) (fuzzySets io) (Some x)
                      else io) ios.

(** Modelled from the spec: [set_input(variable-id, crisp-value)] stores
    the value, without any range check. *)
Definition setInput (f : Fuzzy) (i : Z) (x : Q) : Fuzzy :=
  mkFuzzy (setCrisp i x (fuzzyInputs f)) (fuzzyOutputs f) (fuzzyRules f)
          (lastDegrees f) (resolution f) (fallback f).

Definition owns (io : FuzzyIO) (s : FuzzySet) : bool :=
  existsb (sameSet s) (fuzzySets io).

(** The input variable a leaf is paired with. *)
Definition ownerOf (f : Fuzzy) (s : FuzzySet) : option FuzzyIO :=
  find (fun io => owns io s) (fuzzyInputs f).

Definition crispOf (f : Fuzzy) (s : FuzzySet) : option Q :=
  match ownerOf f s with
  | Some io => crisp io
  | None => None
  end.

Definition degree (f : Fuzzy) (s : FuzzySet) : Q :=
  match crispOf f s with
  | Some x => membership s x
  | None => 0
  end.

(** Modelled from the spec: [fuzzify] evaluates every set of every input
    at the input's crisp value. *)
Definition fuzzifyIO (io : FuzzyIO) : list (string * Q) :=
  match crisp io with
  | Some x => List.map (fun s => (setName s, membership s x)) (fuzzySets io)
  | None => []
  end.

Definition fuzzify (f : Fuzzy) : Fuzzy :=
  mkFuzzy (fuzzyInputs f) (fuzzyOutputs f) (fuzzyRules f)
          (flat_map fuzzifyIO (fuzzyInputs f)) (resolution f) (fallback f).

(** Modelled from the spec: the strength of a leaf is the degree of
    membership of its variable's crisp value in its set, the strength of
    an AND node the minimum of its children's strengths.  The spec
    refuses an antecedent without leaves at configuration time; it has
    no condition that could hold and is given strength 0 here. *)
Fixpoint strength (f : Fuzzy) (a : FuzzyRuleAntecedent) : Q :=
  match a with
  | Unjoined => 0
  | Leaf s => degree f s
  | And l r => Qmin (strength f l) (strength f r)
  end.

Definition firingStrength (f : Fuzzy) (r : FuzzyRule) : Q :=
  strength f (antecedent r).

(** Modelled from the spec: rules that assert the same output set are
    combined with max; a set no rule targets has strength 0. *)
Definition maxStrength (f : Fuzzy) (s : FuzzySet) : Q :=
  fold_right (fun r acc => if sameSet (consequent r) s
                           then Qmax (firingStrength f r) acc
                           else acc)
             0 (fuzzyRules f).

(** Modelled from the spec: the clipped activation of an output set, and
    the height of the aggregated set of an output variable. *)
Definition activation (f : Fuzzy) (s : FuzzySet) (x : Q) : Q :=
  Qmin (membership s x) (maxStrength f s).

Definition aggregated (f : Fuzzy) (sets : list FuzzySet) (x : Q) : Q :=
  fold_right (fun s acc => Qmax (activation f s x) acc) 0 sets.

(** Modelled from the spec: the universe of an output variable is the
    union of [[a,d]] over its sets. *)
Definition universeLo (sets : list FuzzySet) : Q :=
  match sets with
  | [] => 0
  | s :: rest => fold_right (fun u acc => Qmin (pointA u) acc) (pointA s) rest
  end.

Definition universeHi (sets : list FuzzySet) : Q :=
  match sets with
  | [] => 0
  | s :: rest => fold_right (fun u acc => Qmax (pointD u) acc) (pointD s) rest
  end.

Definition midpoint (sets : list FuzzySet) : Q :=
  (universeLo sets + universeHi sets) / 2.

(** [n] equally spaced sample points from [lo] to [hi], both included. *)
Definition samplePoints (lo hi : Q) (n : nat) : list Q :=
  List.map (fun i => lo + (hi - lo) * inject_Z (Z.of_nat i)
                               / inject_Z (Z.of_nat (n - 1)))
           (seq 0 n).

Definition Qsum (l : list Q) : Q := fold_right Qplus 0 l.

(** Modelled from the spec: centroid of the aggregated set over the
    sample points, [None] when every sampled height is 0. *)
Definition centroid (f : Fuzzy) (sets : list FuzzySet) : option Q :=
  let xs := samplePoints (universeLo sets) (universeHi sets) (resolution f) in
  let den := Qsum (List.map (aggregated f sets) xs) in
  let num := Qsum (List.map (fun x => x * aggregated f sets x) xs) in
  if Qeq_bool den 0 then None else Some (Qred (num / den)).

Inductive EvalResult : Type :=
| Crisp (q : Q)
| StateError.

(** Modelled from the spec: evaluation needs a value on every input
    variable that a rule refers to. *)
Definition ready (f : Fuzzy) : bool :=
  forallb (fun r => forallb (fun s => match crispOf f s with
                                      | Some _ => true
                                      | None => false
                                      end)
                            (leaves (antecedent r)))
          (fuzzyRules f).

Definition outputOf (f : Fuzzy) (o : Z) : option FuzzyIO :=
  find (fun io => (index io =? o)%Z) (fuzzyOutputs f).

Definition outputSets (f : Fuzzy) (o : Z) : list FuzzySet :=
  match outputOf f o with
  | Some io => fuzzySets io
  | None => []
  end.

Definition heldOutput (f : Fuzzy) (o : Z) : option Q :=
  match outputOf f o with
  | Some io => crisp io
  | None => None
  end.

(** Modelled from the spec: the value returned when no rule fired. *)
Definition fallbackValue (f : Fuzzy) (o : Z) : Q :=
  match fallback f, heldOutput f o with
  | HoldLast, Some v => v
  | _, _ => midpoint (outputSets f o)
  end.

(** Modelled from the spec: [defuzzify(o)] evaluates the rules,
    aggregates them on output [o] and returns the centroid, or the
    fallback value when the denominator is 0. *)
Definition defuzzify (f : Fuzzy) (o : Z) : EvalResult :=
  if ready f then
    match centroid f (outputSets f o) with
    | Some v => Crisp v
    | None => Crisp (fallbackValue f o)
    end
  else StateError.

(** The engine after [defuzzify(o)]: the output variable holds the value
    produced. *)
Definition storeOutput (f : Fuzzy) (o : Z) (r : EvalResult) : Fuzzy :=
  match r with
  | Crisp v => mkFuzzy (fuzzyInputs f) (setCrisp o v (fuzzyOutputs f))
                       (fuzzyRules f) (lastDegrees f) (resolution f) (fallback f)
  | StateError => f
  end.

End FuzzyLib.
Export FuzzyLib.

(** ** The display (FuzzyDisplay.h, FuzzyDisplay.cpp) *)

Module Display.

Inductive Color : Type :=
| ST77XX_BLACK | ST77XX_WHITE | ST77XX_CYAN | ST77XX_GREEN
| ST77XX_BLUE | ST77XX_YELLOW | ST77XX_RED.

(** The calls made on the [tft] object, in the order they are made.
    [setCursorAfter dx y] is [setCursor(getCursorX() + dx, y)] and
    [drawFastHLineAcross x y c] is [drawFastHLine(x, y, width(), c)]:
    the cursor position and the width are the driver's. *)
Inductive TftOp : Type :=
| initR_GREENTAB
| setRotation (r : Z)
| fillScreen (c : Color)
| setTextSize (n : Z)
| setTextColor (fg bg : Color)
| setCursor (x y : Z)
| setCursorAfter (dx y : Z)
| print (s : string)
| println (s : string)
| printFloat (v : Q) (digits : Z)
| drawFastHLineAcross (x y : Z) (c : Color)
| drawPixel (x y : Z) (c : Color)
| fillRect (x y w h : Z) (c : Color)
| drawRect (x y w h : Z) (c : Color).

Record FuzzyDisplay : Type := mkFuzzyDisplay
  { prevTemp : float;
    prevHumid : float;
    prevSoil : float;
    prevPump : float }.

(** The [float] a member holds after its initialisation with the
    [double] literal -999.9. *)
Definition unlikely : float := stored (to_float (binary64 (-9999 # 10))).

(** The constructor; the three pins only configure the driver. *)
Definition newFuzzyDisplay (csPin dcPin rstPin : Z) : FuzzyDisplay :=
  mkFuzzyDisplay unlikely unlikely unlikely unlikely.

Definition begin (rotation : Z) : list TftOp :=
  [initR_GREENTAB; setRotation rotation; fillScreen ST77XX_BLACK].

Definition drawLayout : list TftOp :=
  [ setTextSize 1;
    setTextColor ST77XX_WHITE ST77XX_BLACK;
    setCursor 10 5;
    println "Fuzzy Irrigation System";
    drawFastHLineAcross 0 20 ST77XX_WHITE;
    setTextColor ST77XX_CYAN ST77XX_BLACK;
    setCursor 10 30; print "Temp:";
    setCursor 65 30; print "Humid:";
    setCursor 123 30; print "Soil:";
    setTextColor ST77XX_GREEN ST77XX_BLACK;
    setCursor 10 60; print "Pump Power Output:" ].

(** [isnan(v) || isnan(prev) || abs(v - prev) > threshold]: the
    difference is a [float], the threshold a [double] literal. *)
Definition needsRedraw (v prev : float) (threshold : Q) : bool :=
  isnan v || isnan prev || fgt (fabs (fsub v prev)) threshold.

(** X position of the degree symbol after a printed temperature. *)
Definition degreeX (temp : Q) : Z :=
  let t := 36%Z in
  if Qltb temp 0 then
    let t := (t + 5)%Z in
    if Qltb (Qabs temp) 10 && negb (Qeq_bool temp 0) then (t + 5)%Z else t
  else if Qltb (Qabs temp) 10 && negb (Qeq_bool temp 0) then (t - 5)%Z
  else if Qeq_bool temp 0 then (t - 5)%Z
  else t.

Definition drawTemp (temp : float) : list TftOp :=
  [ fillRect 10 40 45 11 ST77XX_BLACK;
    setTextSize 1;
    setTextColor ST77XX_WHITE ST77XX_BLACK;
    setCursor 10 40 ] ++
  match temp with
  | NaN => [print "---"]
  | Fin q =>
      let t := degreeX q in
      [ printFloat q 1;
        drawPixel t 40 ST77XX_WHITE;
        drawPixel (t - 1) 40 ST77XX_WHITE;
        drawPixel t 41 ST77XX_WHITE;
        drawPixel (t - 1) 41 ST77XX_WHITE;
        setCursor (t + 2) 40;
        print "C" ]
  end.

(** The humidity and soil blocks differ only in the X position. *)
Definition drawPercent (x : Z) (v : float) : list TftOp :=
  [ fillRect x 40 40 11 ST77XX_BLACK;
    setTextSize 1;
    setTextColor ST77XX_WHITE ST77XX_BLACK;
    setCursor x 40 ] ++
  match v with
  | NaN => [print "---"]
  | Fin q => [printFloat q 1; setCursorAfter 2 40; print "%"]
  end.

Definition pumpColor (pump : Q) : Color :=
  if Qltb pump 20 then ST77XX_BLUE
  else if Qltb pump 50 then ST77XX_YELLOW
  else ST77XX_RED.

(** [(pump == (int)pump && pump >= 0 && pump <= 100) ? 0 : 1] *)
Definition pumpDigits (pump : Q) : Z :=
  if Qeq_bool pump (inject_Z (to_long pump))
     && Qle_bool 0 pump && Qle_bool pump 100
  then 0%Z else 1%Z.

Definition drawPump (pump : float) : list TftOp :=
  [ fillRect 55 74 70 16 ST77XX_BLACK; setTextSize 2 ] ++
  match pump with
  | NaN => [ setTextColor ST77XX_WHITE ST77XX_BLACK; setCursor 55 74; print "--" ]
  | Fin q => [ setTextColor (pumpColor q) ST77XX_BLACK;
               setCursor 55 74;
               printFloat (constrain q 0 100) (pumpDigits q) ]
  end.

Definition barWidth (pump : float) : Z :=
  match pump with
  | NaN => 0%Z
  | Fin q => map (to_long (constrain q 0 100)) 0 100 0 140
  end.

Definition drawBar (pump : float) : list TftOp :=
  [ fillRect 10 100 140 15 ST77XX_BLACK;
    fillRect 10 100 (barWidth pump) 15 ST77XX_GREEN;
    drawRect 10 100 140 15 ST77XX_WHITE ].

(** [updateValues]: the new display state and the calls made, the four
    value blocks first and the bar last.  The bar's test
    [prevPump == -999.9] compares the stored [float] with the [double]
    literal. *)
Definition updateValues (d : FuzzyDisplay) (temp humid soil pump : float)
  : FuzzyDisplay * list TftOp :=
  let pumpChanged := false in
  let '(d, ops1) :=
    if needsRedraw temp (prevTemp d) (5 # 100)
    then (mkFuzzyDisplay temp (prevHumid d) (prevSoil d) (prevPump d), drawTemp temp)
    else (d, []) in
  let '(d, ops2) :=
    if needsRedraw humid (prevHumid d) (5 # 100)
    then (mkFuzzyDisplay (prevTemp d) humid (prevSoil d) (prevPump d), drawPercent 65 humid)
    else (d, []) in
  let '(d, ops3) :=
    if needsRedraw soil (prevSoil d) (5 # 100)
    then (mkFuzzyDisplay (prevTemp d) (prevHumid d) soil (prevPump d), drawPercent 123 soil)
    else (d, []) in
  let '(d, pumpChanged, ops4) :=
    if needsRedraw pump (prevPump d) (5 # 10)
    then (mkFuzzyDisplay (prevTemp d) (prevHumid d) (prevSoil d) pump, true, drawPump pump)
    else (d, pumpChanged, []) in
  let ops5 :=
    if pumpChanged || feq (prevPump d) (-9999 # 10)
    then drawBar pump
    else [] in
  (d, ops1 ++ ops2 ++ ops3 ++ ops4 ++ ops5).

End Display.
Export Display.

(** ** The sketch (FuzzyLogic.ino) *)

Module Sketch.

Inductive SerialOp : Type :=
| Serial_begin (baud : Z)
| Serial_print (s : string)
| Serial_println (s : string)
| Serial_printFloat (v : float) (digits : Z).

Inductive EngineCall : Type :=
| call_setInput (i : Z) (x : Q)
| call_fuzzify
| call_defuzzify (o : Z).

(** What the sketch does to the outside world, in order. *)
Inductive Event : Type :=
| OnSerial (op : SerialOp)
| OnTft (op : TftOp)
| OnEngine (c : EngineCall)
| OnDhtBegin
| OnDelay (ms : Z).

(** What the outside world answers during one pass of [loop]:
    [millis()], the two DHT readings and [analogRead]. *)
Record Env : Type := mkEnv
  { millis : Z;
    readTemperature : float;
    readHumidity : float;
    analogRead : Z }.

(** The global variables, and the static counter of [addRule]. *)
Record Globals : Type := mkGlobals
  { fuzzy : Fuzzy;
    myDisplay : FuzzyDisplay;
    lastDhtReadTime : Z;
    lastSoilReadTime : Z;
    lastLogicDisplayTime : Z;
    currentTemperature : float;
    currentHumidity : float;
    currentSoilMoisture : float;
    currentPumpPower : float;
    ruleNum : Z }.

Definition set_fuzzy (f : Fuzzy) (g : Globals) : Globals :=
  mkGlobals f (myDisplay g) (lastDhtReadTime g) (lastSoilReadTime g)
            (lastLogicDisplayTime g) (currentTemperature g) (currentHumidity g)
            (currentSoilMoisture g) (currentPumpPower g) (ruleNum g).

Definition set_myDisplay (d : FuzzyDisplay) (g : Globals) : Globals :=
  mkGlobals (fuzzy g) d (lastDhtReadTime g) (lastSoilReadTime g)
            (lastLogicDisplayTime g) (currentTemperature g) (currentHumidity g)
            (currentSoilMoisture g) (currentPumpPower g) (ruleNum g).

Definition set_lastDhtReadTime (t : Z) (g : Globals) : Globals :=
  mkGlobals (fuzzy g) (myDisplay g) t (lastSoilReadTime g)
            (lastLogicDisplayTime g) (currentTemperature g) (currentHumidity g)
            (currentSoilMoisture g) (currentPumpPower g) (ruleNum g).

Definition set_lastSoilReadTime (t : Z) (g : Globals) : Globals :=
  mkGlobals (fuzzy g) (myDisplay g) (lastDhtReadTime g) t
            (lastLogicDisplayTime g) (currentTemperature g) (currentHumidity g)
            (currentSoilMoisture g) (currentPumpPower g) (ruleNum g).

Definition set_lastLogicDisplayTime (t : Z) (g : Globals) : Globals :=
  mkGlobals (fuzzy g) (myDisplay g) (lastDhtReadTime g) (lastSoilReadTime g)
            t (currentTemperature g) (currentHumidity g)
            (currentSoilMoisture g) (currentPumpPower g) (ruleNum g).

Definition set_currentTemperature (v : float) (g : Globals) : Globals :=
  mkGlobals (fuzzy g) (myDisplay g) (lastDhtReadTime g) (lastSoilReadTime g)
            (lastLogicDisplayTime g) v (currentHumidity g)
            (currentSoilMoisture g) (currentPumpPower g) (ruleNum g).

Definition set_currentHumidity (v : float) (g : Globals) : Globals :=
  mkGlobals (fuzzy g) (myDisplay g) (lastDhtReadTime g) (lastSoilReadTime g)
            (lastLogicDisplayTime g) (currentTemperature g) v
            (currentSoilMoisture g) (currentPumpPower g) (ruleNum g).

Definition set_currentSoilMoisture (v : float) (g : Globals) : Globals :=
  mkGlobals (fuzzy g) (myDisplay g) (lastDhtReadTime g) (lastSoilReadTime g)
            (lastLogicDisplayTime g) (currentTemperature g) (currentHumidity g)
            v (currentPumpPower g) (ruleNum g).

Definition set_currentPumpPower (v : float) (g : Globals) : Globals :=
  mkGlobals (fuzzy g) (myDisplay g) (lastDhtReadTime g) (lastSoilReadTime g)
            (lastLogicDisplayTime g) (currentTemperature g) (currentHumidity g)
            (currentSoilMoisture g) v (ruleNum g).

Definition set_ruleNum (n : Z) (g : Globals) : Globals :=
  mkGlobals (fuzzy g) (myDisplay g) (lastDhtReadTime g) (lastSoilReadTime g)
            (lastLogicDisplayTime g) (currentTemperature g) (currentHumidity g)
            (currentSoilMoisture g) (currentPumpPower g) n.

(** Statements of the sketch: they read and write the globals and emit
    events. *)
Definition M (A : Type) : Type := Globals -> A * Globals * list Event.

Definition ret {A : Type} (a : A) : M A := fun g => (a, g, []).

Definition bind {A B : Type} (m : M A) (k : A -> M B) : M B :=
  fun g =>
    let '(a, g1, e1) := m g in
    let '(b, g2, e2) := k a g1 in
    (b, g2, e1 ++ e2).

Definition gets {A : Type} (p : Globals -> A) : M A := fun g => (p g, g, []).

Definition modify (u : Globals -> Globals) : M unit := fun g => (tt, u g, []).

Definition emit (e : Event) : M unit := fun g => (tt, g, [e]).

Definition emitAll (es : list Event) : M unit := fun g => (tt, g, es).

Definition when (b : bool) (m : M unit) : M unit := if b then m else ret tt.

Declare Scope sketch_scope.
Delimit Scope sketch_scope with sketch.
Notation "x <- m ;; k" := (bind m (fun x => k))
  (at level 61, m at next level, right associativity) : sketch_scope.
Notation "m ;; k" := (bind m (fun _ => k))
  (at level 61, right associativity) : sketch_scope.
Open Scope sketch_scope.

Definition globalsAfter {A : Type} (m : M A) (g : Globals) : Globals :=
  snd (fst (m g)).

Definition eventsOf {A : Type} (m : M A) (g : Globals) : list Event :=
  snd (m g).

Definition engineCalls (es : list Event) : list EngineCall :=
  flat_map (fun e => match e with OnEngine c => [c] | _ => [] end) es.

(** *** Fuzzy sets and variables *)

Definition lowTemp := mkFuzzySet "lowTemp" (-5) (-5) 10 20.
Definition mediumTemp := mkFuzzySet "mediumTemp" 10 20 20 30.
Definition highTemp := mkFuzzySet "highTemp" 20 30 45 45.

Definition lowHumidity := mkFuzzySet "lowHumidity" 0 0 30 50.
Definition mediumHumidity := mkFuzzySet "mediumHumidity" 30 50 50 70.
Definition highHumidity := mkFuzzySet "highHumidity" 50 70 100 100.

Definition drySoil := mkFuzzySet "drySoil" 0 0 20 35.
Definition moistSoil := mkFuzzySet "moistSoil" 20 35 40 55.
Definition wetSoil := mkFuzzySet "wetSoil" 40 55 100 100.

Definition noWater := mkFuzzySet "noWater" 0 0 0 15.
Definition lowWater := mkFuzzySet "lowWater" 0 15 15 40.
Definition moderateWater := mkFuzzySet "moderateWater" 15 40 40 60.
Definition fullWater := mkFuzzySet "fullWater" 40 60 100 100.

Definition temperatureInput := mkFuzzyIO 1 [] None.
Definition humidityInput := mkFuzzyIO 2 [] None.
Definition soilMoistureInput := mkFuzzyIO 3 [] None.
Definition pumpPowerOutput := mkFuzzyIO 1 [] None.

Definition dhtReadInterval : Z := 2000.
Definition soilReadInterval : Z := 500.
Definition logicDisplayInterval : Z := 1000.

(** The globals before [setup]; the engine's number of sample points and
    its fallback policy are the library's and are left open. *)
Definition initialGlobals (n : nat) (fb : Fallback) : Globals :=
  mkGlobals (newFuzzy n fb) (newFuzzyDisplay 5 22 4) 0 0 0 NaN NaN NaN (Fin 0) 1.

(** *** Rules *)

Definition notNull (p : option FuzzySet) : Z :=
  match p with Some _ => 1 | None => 0 end.

Definition addRule (tempSet humidSet soilSet : option FuzzySet)
           (outputSet : FuzzySet) : M unit :=
  let antecedent := Unjoined in
  let inputCount := (notNull tempSet + notNull humidSet + notNull soilSet)%Z in
  if (inputCount =? 0)%Z then
    emit (OnSerial (Serial_println "Error: Rule needs at least one input set"))
  else
    let antecedent :=
      if (inputCount =? 1)%Z then
        match tempSet, humidSet, soilSet with
        | Some t, _, _ => joinSingle t
        | None, Some h, _ => joinSingle h
        | None, None, Some s => joinSingle s
        | None, None, None => antecedent
        end
      else if (inputCount =? 2)%Z then
        match tempSet, humidSet, soilSet with
        | Some t, Some h, _ => joinWithAND t h
        | Some t, None, Some s => joinWithAND t s
        | None, Some h, Some s => joinWithAND h s
        | _, _, _ => antecedent
        end
      else if (inputCount =? 3)%Z then
        match tempSet, humidSet, soilSet with
        | Some t, Some h, Some s =>
            let tempHumid := joinWithAND t h in
            joinWithAND_nested tempHumid s
        | _, _, _ => antecedent
        end
      else antecedent in
    let consequent := outputSet in
    n <- gets ruleNum ;;
    modify (set_ruleNum (n + 1)) ;;
    modify (fun g => set_fuzzy (addFuzzyRule (fuzzy g) (mkFuzzyRule n antecedent consequent)) g).

Definition setupFuzzyRules : M unit :=
  addRule (Some lowTemp) (Some lowHumidity) (Some drySoil) lowWater ;;
  addRule (Some lowTemp) (Some mediumHumidity) None noWater ;;
  addRule (Some lowTemp) (Some highHumidity) None noWater ;;
  addRule (Some lowTemp) None (Some moistSoil) noWater ;;
  addRule None None (Some wetSoil) noWater ;;
  addRule (Some mediumTemp) (Some lowHumidity) (Some drySoil) fullWater ;;
  addRule (Some mediumTemp) (Some lowHumidity) (Some moistSoil) moderateWater ;;
  addRule (Some mediumTemp) (Some mediumHumidity) (Some drySoil) moderateWater ;;
  addRule (Some mediumTemp) (Some mediumHumidity) (Some moistSoil) lowWater ;;
  addRule (Some mediumTemp) (Some highHumidity) (Some drySoil) lowWater ;;
  addRule (Some mediumTemp) (Some highHumidity) (Some moistSoil) noWater ;;
  addRule (Some highTemp) None (Some drySoil) fullWater ;;
  addRule (Some highTemp) (Some highHumidity) (Some moistSoil) lowWater ;;
  addRule (Some highTemp) (Some lowHumidity) (Some moistSoil) moderateWater ;;
  addRule (Some highTemp) (Some mediumHumidity) (Some moistSoil) moderateWater.

(** *** setup

    [m1], [m2] and [m3] are the three values [millis()] returns at the
    end of [setup]. *)
Definition setup (m1 m2 m3 : Z) : M unit :=
  emit (OnSerial (Serial_begin 115200)) ;;
  emit OnDhtBegin ;;
  emit (OnDelay 1000) ;;
  let temperatureInput :=
    addFuzzySet (addFuzzySet (addFuzzySet temperatureInput lowTemp) mediumTemp) highTemp in
  modify (fun g => set_fuzzy (addFuzzyInput (fuzzy g) temperatureInput) g) ;;
  let humidityInput :=
    addFuzzySet (addFuzzySet (addFuzzySet humidityInput lowHumidity) mediumHumidity)
                highHumidity in
  modify (fun g => set_fuzzy (addFuzzyInput (fuzzy g) humidityInput) g) ;;
  let soilMoistureInput :=
    addFuzzySet (addFuzzySet (addFuzzySet soilMoistureInput drySoil) moistSoil) wetSoil in
  modify (fun g => set_fuzzy (addFuzzyInput (fuzzy g) soilMoistureInput) g) ;;
  let pumpPowerOutput :=
    addFuzzySet (addFuzzySet (addFuzzySet (addFuzzySet pumpPowerOutput noWater) lowWater)
                             moderateWater) fullWater in
  modify (fun g => set_fuzzy (addFuzzyOutput (fuzzy g) pumpPowerOutput) g) ;;
  setupFuzzyRules ;;
  emitAll (List.map OnTft (begin 3)) ;;
  emitAll (List.map OnTft drawLayout) ;;
  modify (set_lastDhtReadTime m1) ;;
  modify (set_lastSoilReadTime m2) ;;
  modify (set_lastLogicDisplayTime m3).

(** *** loop *)

(** Task 1: the DHT sensor. *)
Definition readDht (env : Env) : M unit :=
  let currentTime := millis env in
  last <- gets lastDhtReadTime ;;
  when (ulong_sub currentTime last >=? dhtReadInterval)%Z
    (modify (set_lastDhtReadTime currentTime) ;;
     let temp := readTemperature env in
     let humid := readHumidity env in
     when (negb (isnan temp)) (modify (set_currentTemperature temp)) ;;
     when (negb (isnan humid)) (modify (set_currentHumidity humid))).

(** [(1.0 - (soilMoistureRaw / 4095.0)) * 100.0]: computed in [double],
    then assigned to a [float]. *)
Definition soilFormula (soilMoistureRaw : Z) : spec_float :=
  to_float
    (SFmul 53 1024
       (SFsub 53 1024 (binary64 1)
          (SFdiv 53 1024 (binary64 (inject_Z soilMoistureRaw)) (binary64 4095)))
       (binary64 100)).

(** The conversion of a raw ADC reading to a percentage; the result of
    [constrain], a [double], is assigned to the [float] global. *)
Definition soilPercent (soilMoistureRaw : Z) : float :=
  let calculatedSoilMoisture := soilFormula soilMoistureRaw in
  let calculatedSoilMoisture :=
    if (soilMoistureRaw >=? 4095)%Z then to_float (binary64 0)
    else calculatedSoilMoisture in
  stored (to_float (fconstrain calculatedSoilMoisture (binary64 0) (binary64 100))).

Arguments soilPercent : simpl never.

(** Task 2: the soil moisture sensor. *)
Definition readSoil (env : Env) : M unit :=
  let currentTime := millis env in
  last <- gets lastSoilReadTime ;;
  when (ulong_sub currentTime last >=? soilReadInterval)%Z
    (modify (set_lastSoilReadTime currentTime) ;;
     let soilMoistureRaw := analogRead env in
     modify (set_currentSoilMoisture (soilPercent soilMoistureRaw))).

Definition displayUpdate : M unit :=
  fun g =>
    let '(d, ops) := updateValues (myDisplay g) (currentTemperature g) (currentHumidity g)
                                  (currentSoilMoisture g) (currentPumpPower g) in
    (tt, set_myDisplay d g, List.map OnTft ops).

(** [currentPumpPower = fuzzy->defuzzify(1)].  The engine's [StateError]
    cannot be returned as a float; the previous value is kept then. *)
Definition runDefuzzify : M unit :=
  emit (OnEngine (call_defuzzify 1)) ;;
  f <- gets fuzzy ;;
  let r := defuzzify f 1 in
  modify (set_fuzzy (storeOutput f 1 r)) ;;
  match r with
  | Crisp v => modify (set_currentPumpPower (Fin v))
  | StateError => ret tt
  end.

Definition runSetInput (i : Z) (x : Q) : M unit :=
  emit (OnEngine (call_setInput i x)) ;;
  modify (fun g => set_fuzzy (setInput (fuzzy g) i x) g).

Definition runFuzzify : M unit :=
  emit (OnEngine call_fuzzify) ;;
  modify (fun g => set_fuzzy (fuzzify (fuzzy g)) g).

Definition serialReport : M unit :=
  t <- gets currentTemperature ;;
  h <- gets currentHumidity ;;
  s <- gets currentSoilMoisture ;;
  p <- gets currentPumpPower ;;
  emitAll (List.map OnSerial
    [ Serial_print "Temp: "; Serial_printFloat t 1; Serial_print "°C, ";
      Serial_print "Humid: "; Serial_printFloat h 1; Serial_print "%, ";
      Serial_print "Soil: "; Serial_printFloat s 1; Serial_print "%, ";
      Serial_print "Pump: "; Serial_printFloat p 1; Serial_println "%" ]).

(** The branch of task 3 taken when the three readings are valid. *)
Definition runInference (t h s : Q) : M unit :=
  runSetInput 1 t ;;
  runSetInput 2 h ;;
  runSetInput 3 s ;;
  runFuzzify ;;
  runDefuzzify ;;
  serialReport ;;
  displayUpdate.

(** The branch of task 3 taken otherwise. *)
Definition waitForSensors : M unit :=
  displayUpdate ;;
  emit (OnSerial (Serial_println "Waiting for all sensor data to be valid...")).

(** Task 3: the fuzzy logic and the display.  The test
    [!isnan(t) && !isnan(h) && !isnan(s)] is the first branch of the
    match. *)
Definition processLogic (env : Env) : M unit :=
  let currentTime := millis env in
  last <- gets lastLogicDisplayTime ;;
  when (ulong_sub currentTime last >=? logicDisplayInterval)%Z
    (modify (set_lastLogicDisplayTime currentTime) ;;
     t <- gets currentTemperature ;;
     h <- gets currentHumidity ;;
     s <- gets currentSoilMoisture ;;
     match t, h, s with
     | Fin t, Fin h, Fin s => runInference t h s
     | _, _, _ => waitForSensors
     end).

Definition loop (env : Env) : M unit :=
  readDht env ;;
  readSoil env ;;
  processLogic env.

End Sketch.
Export Sketch.

(** ** Configurations and notions used in the statements *)

Module Scenarios.

(** The sketch after [setup], for an engine with [n] sample points and
    fallback policy [fb]. *)
Definition configured (n : nat) (fb : Fallback) : Globals :=
  globalsAfter (setup 0 0 0) (initialGlobals n fb).

(** The three [setInput] calls and the [fuzzify] call of one cycle. *)
Definition withInputs (f : Fuzzy) (t h s : Q) : Fuzzy :=
  fuzzify (setInput (setInput (setInput f 1 t) 2 h) 3 s).

(** Scenario A: the sets [lowTemp], [lowHumidity], [drySoil] and
    [lowWater] only, and the first rule of [setupFuzzyRules]. *)
Definition scenarioA (n : nat) (fb : Fallback) : Fuzzy :=
  let f := newFuzzy n fb in
  let f := addFuzzyInput f (addFuzzySet temperatureInput lowTemp) in
  let f := addFuzzyInput f (addFuzzySet humidityInput lowHumidity) in
  let f := addFuzzyInput f (addFuzzySet soilMoistureInput drySoil) in
  let f := addFuzzyOutput f (addFuzzySet pumpPowerOutput lowWater) in
  fuzzy (globalsAfter
           (addRule (Some lowTemp) (Some lowHumidity) (Some drySoil) lowWater)
           (set_fuzzy f (initialGlobals n fb))).

(** The non-null input sets among the arguments of [addRule], in
    argument order. *)
Definition presentSets (tempSet humidSet soilSet : option FuzzySet) : list FuzzySet :=
  let given p := match p with Some s => [s] | None => [] end in
  given tempSet ++ given humidSet ++ given soilSet.

(** The globals when task 3 of [loop] starts: after the two sampling
    tasks of the same pass. *)
Definition sampled (env : Env) (g : Globals) : Globals :=
  globalsAfter (readDht env ;; readSoil env) g.

(** A set-up in which one rule names no input set at all. *)
Definition setupWithEmptyRule : M unit :=
  setup 0 0 0 ;; addRule None None None noWater.

(** Whether task 3 of [loop] is due in this pass. *)
Definition logicDue (env : Env) (g : Globals) : bool :=
  (ulong_sub (millis env) (lastLogicDisplayTime g) >=? logicDisplayInterval)%Z.

(** Whether task 2 of [loop] is due in this pass. *)
Definition soilDue (env : Env) (g : Globals) : bool :=
  (ulong_sub (millis env) (lastSoilReadTime g) >=? soilReadInterval)%Z.

(** The engine calls of one pass that runs the inference. *)
Definition inferenceCalls (t h s : Q) : list EngineCall :=
  [ call_setInput 1 t; call_setInput 2 h; call_setInput 3 s;
    call_fuzzify; call_defuzzify 1 ].

(** A statement that leaves the three stored readings alone. *)
Definition keepsReadings (m : M unit) : Prop :=
  forall g,
    currentTemperature (globalsAfter m g) = currentTemperature g /\
    currentHumidity (globalsAfter m g) = currentHumidity g /\
    currentSoilMoisture (globalsAfter m g) = currentSoilMoisture g.

(** A statement that makes the engine calls [cs], whatever the globals. *)
Definition callsOf (m : M unit) (cs : list EngineCall) : Prop :=
  forall g, engineCalls (eventsOf m g) = cs.

(** Whether rule [r] asserts a set of output [o]. *)
Definition targets (f : Fuzzy) (o : Z) (r : FuzzyRule) : bool :=
  existsb (sameSet (consequent r)) (outputSets f o).

(** Whether no rule that targets output [o] fires. *)
Definition noneFires (f : Fuzzy) (o : Z) : bool :=
  forallb (fun r => negb (targets f o r) || Qeq_bool (firingStrength f r) 0)
          (fuzzyRules f).

(** The rectangles a sequence of display calls clears (fills with black)
    before redrawing them. *)
Definition clearedAreas (ops : list TftOp) : list (Z * Z * Z * Z) :=
  flat_map (fun op => match op with
                      | fillRect x y w h ST77XX_BLACK => [(x, y, w, h)]
                      | _ => []
                      end) ops.

Definition tempArea : Z * Z * Z * Z := (10, 40, 45, 11)%Z.
Definition humidArea : Z * Z * Z * Z := (65, 40, 40, 11)%Z.
Definition soilArea : Z * Z * Z * Z := (123, 40, 40, 11)%Z.
Definition pumpArea : Z * Z * Z * Z := (55, 74, 70, 16)%Z.
Definition barArea : Z * Z * Z * Z := (10, 100, 140, 15)%Z.

(** The five branches of [membership], with the facts each one holds
    under. *)
Inductive membership_case (s : FuzzySet) (x : Q) : Q -> Prop :=
| below : x < pointA s -> membership_case s x 0
| above : pointA s <= x -> pointD s < x -> membership_case s x 0
| plateau : pointA s <= x -> x <= pointD s -> pointB s <= x -> x <= pointC s ->
            membership_case s x 1
| rising : pointA s <= x -> x <= pointD s -> x < pointB s ->
           membership_case s x ((x - pointA s) / (pointB s - pointA s))
| falling : pointA s <= x -> x <= pointD s -> pointB s <= x -> pointC s < x ->
            membership_case s x ((pointD s - x) / (pointD s - pointC s)).

(** The readings a 12-bit ADC can return. *)
Definition adcReadings : list Z := List.map Z.of_nat (seq 0 4096).

(** The exact value of [(1 - raw/4095) * 100]. *)
Definition soilExact (raw : Z) : Q := (1 - inject_Z raw / 4095) * 100.

(** Whether the percentage stored for [raw] is a number of [[0,100]]
    within 2^-18 of the exact value. *)
Definition soilCheck (raw : Z) : bool :=
  match soilPercent raw with
  | Fin q => Qle_bool 0 q && Qle_bool q 100
             && Qle_bool (Qabs (q - soilExact raw)) (1 # 262144)
  | NaN => false
  end.

End Scenarios.
Export Scenarios.

(** ** Runs of the sketch *)

Module Runs.

(** Whether task 1 of [loop] is due in this pass. *)
Definition dhtDue (env : Env) (g : Globals) : bool :=
  (ulong_sub (millis env) (lastDhtReadTime g) >=? dhtReadInterval)%Z.

(** Successive passes of [loop], one environment per pass. *)
Definition runLoop (envs : list Env) (g : Globals) : Globals :=
  fold_left (fun g env => globalsAfter (loop env) g) envs g.

(** A stored soil moisture that is still unset, or a percentage. *)
Definition soilInRange (v : float) : Prop :=
  match v with
  | NaN => True
  | Fin q => 0 <= q <= 100
  end.

(** The test of task 3 on the stored readings. *)
Definition allValid (g : Globals) : bool :=
  negb (isnan (currentTemperature g)) && negb (isnan (currentHumidity g))
  && negb (isnan (currentSoilMoisture g)).

(** The arguments of one call of [addRule]. *)
Definition RuleCall : Type :=
  (option FuzzySet * option FuzzySet * option FuzzySet * FuzzySet)%type.

(** A sequence of [addRule] calls, as in [setupFuzzyRules]. *)
Definition addRules (calls : list RuleCall) : M unit :=
  fold_right (fun c m => let '(t, h, s, o) := c in addRule t h s o ;; m)
             (ret tt) calls.

(** Whether a call names at least one input set. *)
Definition namesInput (c : RuleCall) : bool :=
  let '(t, h, s, _) := c in
  negb (notNull t + notNull h + notNull s =? 0)%Z.

(** A statement that leaves the time stamps of the two sampling tasks
    alone. *)
Definition keepsClocks (m : M unit) : Prop :=
  forall g,
    lastDhtReadTime (globalsAfter m g) = lastDhtReadTime g /\
    lastSoilReadTime (globalsAfter m g) = lastSoilReadTime g /\
    lastLogicDisplayTime (globalsAfter m g) = lastLogicDisplayTime g.

(** The calls of [setupFuzzyRules], in order. *)
Definition sketchRules : list RuleCall :=
  [ (Some lowTemp, Some lowHumidity, Some drySoil, lowWater);
    (Some lowTemp, Some mediumHumidity, None, noWater);
    (Some lowTemp, Some highHumidity, None, noWater);
    (Some lowTemp, None, Some moistSoil, noWater);
    (None, None, Some wetSoil, noWater);
    (Some mediumTemp, Some lowHumidity, Some drySoil, fullWater);
    (Some mediumTemp, Some lowHumidity, Some moistSoil, moderateWater);
    (Some mediumTemp, Some mediumHumidity, Some drySoil, moderateWater);
    (Some mediumTemp, Some mediumHumidity, Some moistSoil, lowWater);
    (Some mediumTemp, Some highHumidity, Some drySoil, lowWater);
    (Some mediumTemp, Some highHumidity, Some moistSoil, noWater);
    (Some highTemp, None, Some drySoil, fullWater);
    (Some highTemp, Some highHumidity, Some moistSoil, lowWater);
    (Some highTemp, Some lowHumidity, Some moistSoil, moderateWater);
    (Some highTemp, Some mediumHumidity, Some moistSoil, moderateWater) ].

(** An ADC reading is never negative. *)
Definition adcValid (env : Env) : Prop := (0 <= analogRead env)%Z.

(** The calls of a list of events that go to the display. *)
Definition tftCalls (es : list Event) : list TftOp :=
  flat_map (fun e => match e with OnTft op => [op] | _ => [] end) es.

(** The events of successive passes of [loop]. *)
Fixpoint runEvents (envs : list Env) (g : Globals) : list Event :=
  match envs with
  | [] => []
  | env :: rest => eventsOf (loop env) g ++ runEvents rest (globalsAfter (loop env) g)
  end.

(** The two values the DHT driver delivers. *)
Inductive DhtValue : Type := Temperature | Humidity.

Definition storedValue (v : DhtValue) (g : Globals) : float :=
  match v with
  | Temperature => currentTemperature g
  | Humidity => currentHumidity g
  end.

Definition sensorValue (v : DhtValue) (env : Env) : float :=
  match v with
  | Temperature => readTemperature env
  | Humidity => readHumidity env
  end.

(** A statement that neither touches the display object nor draws. *)
Definition quiet (m : M unit) : Prop :=
  forall g, myDisplay (globalsAfter m g) = myDisplay g /\ tftCalls (eventsOf m g) = [].

(** The display state and the calls of [updateValues] on the readings and
    the pump power that the globals [g'] hold, from display state [d]. *)
Definition refreshed (d : FuzzyDisplay) (g' : Globals) : FuzzyDisplay * list TftOp :=
  updateValues d (currentTemperature g') (currentHumidity g')
               (currentSoilMoisture g') (currentPumpPower g').

(** A statement whose only effect on the display is one [updateValues]
    call on the values the globals hold when it ends. *)
Definition refreshes (m : M unit) : Prop :=
  forall g,
    myDisplay (globalsAfter m g) = fst (refreshed (myDisplay g) (globalsAfter m g)) /\
    tftCalls (eventsOf m g) = snd (refreshed (myDisplay g) (globalsAfter m g)).

(** An IEEE value that is not negative: its sign bit is clear, or it is NaN. *)
Definition signClear (x : spec_float) : bool :=
  match x with
  | S754_zero s => negb s
  | S754_infinity s => negb s
  | S754_nan => true
  | S754_finite s _ _ => negb s
  end.

End Runs.
Export Runs.

(** * Properties *)

Section NumericFacts.

Lemma Qltb_lt (x y : Q) : Qltb x y = true <-> x < y.
Proof.
  unfold Qltb. rewrite negb_true_iff.
  split; intro H.
  - apply Qnot_le_lt. intro L. apply Qle_bool_iff in L. congruence.
  - destruct (Qle_bool y x) eqn:E; trivial.
    apply Qle_bool_iff in E. lra.
Qed.

Lemma Qltb_ge (x y : Q) : Qltb x y = false <-> y <= x.
Proof.
  unfold Qltb. rewrite negb_false_iff. apply Qle_bool_iff.
Qed.

Lemma Qle_bool_gt (x y : Q) : Qle_bool x y = false <-> y < x.
Proof.
  rewrite <- Qltb_lt. unfold Qltb.
  destruct (Qle_bool x y); simpl; intuition congruence.
Qed.

End NumericFacts.

Section Trapezoid.

Lemma Qdiv_le_mono (x y k : Q) : 0 < k -> x <= y -> x / k <= y / k.
Proof.
  intros Hk Hxy. apply Qle_shift_div_l; trivial.
  setoid_replace (x / k * k) with x by (field; lra). exact Hxy.
Qed.

Lemma Qdiv_unit (x k : Q) : 0 < k -> 0 <= x -> x <= k -> 0 <= x / k <= 1.
Proof.
  intros Hk H0 H1. split.
  - apply Qle_shift_div_l; lra.
  - apply Qle_shift_div_r; lra.
Qed.

Lemma membership_spec (s : FuzzySet) (x : Q) : membership_case s x (membership s x).
Proof.
  unfold membership.
  destruct (Qltb x (pointA s)) eqn:Ea.
  { apply below. now apply Qltb_lt. }
  apply Qltb_ge in Ea.
  destruct (Qltb (pointD s) x) eqn:Ed.
  { apply above; trivial. now apply Qltb_lt. }
  apply Qltb_ge in Ed.
  destruct (Qle_bool (pointB s) x) eqn:Eb; simpl.
  - apply Qle_bool_iff in Eb.
    destruct (Qle_bool x (pointC s)) eqn:Ec.
    + apply Qle_bool_iff in Ec. now apply plateau.
    + apply Qle_bool_gt in Ec.
      destruct (Qltb x (pointB s)) eqn:Eb'.
      * apply Qltb_lt in Eb'. lra.
      * now apply falling.
  - apply Qle_bool_gt in Eb.
    destruct (Qltb x (pointB s)) eqn:Eb'.
    + now apply rising.
    + apply Qltb_ge in Eb'. lra.
Qed.

Lemma membership_range (s : FuzzySet) (x : Q) : 0 <= membership s x <= 1.
Proof.
  destruct (membership_spec s x); try lra.
  - apply Qdiv_unit; lra.
  - apply Qdiv_unit; lra.
Qed.

Lemma membership_rising (s : FuzzySet) (x : Q) :
  pointA s < pointB s -> pointB s <= pointC s -> pointC s <= pointD s ->
  pointA s <= x -> x <= pointB s ->
  membership s x == (x - pointA s) / (pointB s - pointA s).
Proof.
  intros Hab Hbc Hcd Hax Hxb.
  destruct (membership_spec s x); try lra; try reflexivity.
  assert (E : x == pointB s) by lra. rewrite E. field. lra.
Qed.

Lemma membership_falling (s : FuzzySet) (x : Q) :
  pointA s <= pointB s -> pointB s <= pointC s -> pointC s < pointD s ->
  pointC s <= x -> x <= pointD s ->
  membership s x == (pointD s - x) / (pointD s - pointC s).
Proof.
  intros Hab Hbc Hcd Hcx Hxd.
  destruct (membership_spec s x); try lra; try reflexivity.
  assert (E : x == pointC s) by lra. rewrite E. field. lra.
Qed.

Lemma membership_plateau (s : FuzzySet) (x : Q) :
  wellFormed s -> pointB s <= x -> x <= pointC s -> membership s x == 1.
Proof.
  intros (Hab & Hbc & Hcd) Hbx Hxc.
  destruct (membership_spec s x); try lra; reflexivity.
Qed.

Lemma membership_outside (s : FuzzySet) (x : Q) :
  x < pointA s \/ pointD s < x -> membership s x == 0.
Proof.
  intros H. destruct (membership_spec s x); try lra; reflexivity.
Qed.

End Trapezoid.

Section TrapezoidShape.

Lemma membership_monotone_up (s : FuzzySet) (x y : Q) :
  wellFormed s -> pointA s <= x -> x <= y -> y <= pointB s ->
  membership s x <= membership s y.
Proof.
  intros (Hab & Hbc & Hcd) Hax Hxy Hyb.
  destruct (Qlt_le_dec (pointA s) (pointB s)) as [Lt | Ge].
  - rewrite (membership_rising s x), (membership_rising s y); try lra.
    apply Qdiv_le_mono; lra.
  - rewrite (membership_plateau s x), (membership_plateau s y);
      unfold wellFormed; try lra.
Qed.

Lemma membership_monotone_down (s : FuzzySet) (x y : Q) :
  wellFormed s -> pointC s <= x -> x <= y -> y <= pointD s ->
  membership s y <= membership s x.
Proof.
  intros (Hab & Hbc & Hcd) Hcx Hxy Hyd.
  destruct (Qlt_le_dec (pointC s) (pointD s)) as [Lt | Ge].
  - rewrite (membership_falling s x), (membership_falling s y); try lra.
    apply Qdiv_le_mono; lra.
  - rewrite (membership_plateau s x), (membership_plateau s y);
      unfold wellFormed; try lra.
Qed.

(** C1.  For a trapezoid with [a <= b <= c <= d] the degree of membership
    lies in [[0,1]] for every [x]; it is 0 below [a] and above [d], the
    ramp [(x-a)/(b-a)] on [[a,b]] when [a < b] and 1 at once when
    [a = b], 1 on the plateau [[b,c]], the ramp [(d-x)/(d-c)] on [[c,d]]
    when [c < d] and 0 at once past [d] when [c = d]; it is
    non-decreasing on [[a,b]], constant on [[b,c]] and non-increasing on
    [[c,d]]. *)
Theorem membership_trapezoid (s : FuzzySet) (W : wellFormed s) :
  (forall x, 0 <= membership s x <= 1) /\
  (forall x, x < pointA s \/ pointD s < x -> membership s x == 0) /\
  (forall x, pointA s < pointB s -> pointA s <= x <= pointB s ->
             membership s x == (x - pointA s) / (pointB s - pointA s)) /\
  (pointA s == pointB s -> membership s (pointA s) == 1) /\
  (forall x, pointB s <= x <= pointC s -> membership s x == 1) /\
  (forall x, pointC s < pointD s -> pointC s <= x <= pointD s ->
             membership s x == (pointD s - x) / (pointD s - pointC s)) /\
  (pointC s == pointD s ->
     membership s (pointD s) == 1 /\
     forall x, pointD s < x -> membership s x == 0) /\
  (forall x y, pointA s <= x -> x <= y -> y <= pointB s ->
               membership s x <= membership s y) /\
  (forall x y, pointB s <= x <= pointC s -> pointB s <= y <= pointC s ->
               membership s x == membership s y) /\
  (forall x y, pointC s <= x -> x <= y -> y <= pointD s ->
               membership s y <= membership s x).
Proof.
  pose proof W as (Hab & Hbc & Hcd).
  repeat apply conj.
  - apply membership_range.
  - apply membership_outside.
  - intros x Lt [? ?]. apply membership_rising; trivial.
  - intros E. apply membership_plateau; trivial; lra.
  - intros x [? ?]. apply membership_plateau; trivial.
  - intros x Lt [? ?]. apply membership_falling; trivial.
  - intros E. split.
    + apply membership_plateau; trivial; lra.
    + intros x Hx. apply membership_outside. now right.
  - intros x y. now apply membership_monotone_up.
  - intros x y [? ?] [? ?].
    rewrite (membership_plateau s x), (membership_plateau s y); trivial.
    reflexivity.
  - intros x y. now apply membership_monotone_down.
Qed.

Lemma membership_trapezoid_witness :
  wellFormed lowWater /\
  0 <= membership lowWater 5 <= 1 /\
  membership lowWater 5 == 1 # 3 /\
  membership lowWater 5 <= membership lowWater 10.
Proof.
  assert (W : wellFormed lowWater) by (unfold wellFormed; simpl; lra).
  destruct (membership_trapezoid lowWater W)
    as (R & _ & Up & _ & _ & _ & _ & Mono & _).
  split; [exact W |].
  split; [apply R |].
  split.
  - rewrite Up; simpl; try lra. reflexivity.
  - apply Mono; simpl; lra.
Defined.

End TrapezoidShape.

Section AntecedentStrength.

Lemma degree_range (f : Fuzzy) (s : FuzzySet) : 0 <= degree f s <= 1.
Proof.
  unfold degree. destruct (crispOf f s).
  - apply membership_range.
  - lra.
Qed.

Lemma strength_range (f : Fuzzy) (a : FuzzyRuleAntecedent) : 0 <= strength f a <= 1.
Proof.
  induction a as [| s | l IHl r IHr]; simpl.
  - lra.
  - apply degree_range.
  - split.
    + apply Q.min_glb; tauto.
    + apply Qle_trans with (strength f l); [apply Q.le_min_l | tauto].
Qed.

(** An antecedent is never stronger than any one of its leaves. *)
Lemma strength_le_leaf (f : Fuzzy) (a : FuzzyRuleAntecedent) (s : FuzzySet) :
  In s (leaves a) -> strength f a <= degree f s.
Proof.
  induction a as [| t | l IHl r IHr]; simpl; intros H.
  - contradiction.
  - destruct H as [-> | []]. apply Qle_refl.
  - apply in_app_or in H. destruct H as [H | H].
    + eapply Qle_trans; [apply Q.le_min_l | auto].
    + eapply Qle_trans; [apply Q.le_min_r | auto].
Qed.

(** C2.  The strength of a leaf is the degree of membership of the crisp
    value of the leaf's variable in the leaf's set; the strength of an AND
    node is the minimum of the strengths of its two children; so the
    strength of a two-leaf antecedent exceeds neither leaf's degree (and no
    antecedent exceeds any of its leaves, nor leaves [[0,1]]). *)
Theorem strength_is_min (f : Fuzzy) :
  (forall s io x, ownerOf f s = Some io -> crisp io = Some x ->
                  strength f (Leaf s) = membership s x) /\
  (forall l r, strength f (And l r) = Qmin (strength f l) (strength f r)) /\
  (forall s1 s2, strength f (joinWithAND s1 s2) <= degree f s1 /\
                 strength f (joinWithAND s1 s2) <= degree f s2) /\
  (forall a s, In s (leaves a) -> strength f a <= degree f s) /\
  (forall a, 0 <= strength f a <= 1).
Proof.
  repeat apply conj.
  - intros s io x Ho Hx. simpl. unfold degree, crispOf. now rewrite Ho, Hx.
  - reflexivity.
  - intros s1 s2. split; apply strength_le_leaf; simpl; auto.
  - intros a s. apply strength_le_leaf.
  - apply strength_range.
Qed.

Lemma strength_is_min_witness :
  exists io,
    ownerOf (withInputs (fuzzy (configured 101 Midpoint)) 25 10 10) mediumTemp = Some io /\
    crisp io = Some 25 /\
    strength (withInputs (fuzzy (configured 101 Midpoint)) 25 10 10) (Leaf mediumTemp)
    = membership mediumTemp 25.
Proof.
  eexists. split; [vm_compute; reflexivity |].
  split; [reflexivity |].
  eapply (proj1 (strength_is_min _)); vm_compute; reflexivity.
Defined.

End AntecedentStrength.

Section ScenarioA.

Lemma Qmin_unit_r (x : Q) : x <= 1 -> Qmin x 1 == x.
Proof. intros. now apply Q.min_l. Qed.

Lemma Qmax_zero_r (x : Q) : 0 <= x -> Qmax x 0 == x.
Proof. intros. now apply Q.max_l. Qed.

(** C3.  In scenario A (sets [lowTemp], [lowHumidity], [drySoil],
    [lowWater] and the rule AND-ing the three inputs to [lowWater]) the
    inputs temperature 5, humidity 10, soil 10 fire the rule with strength
    exactly 1, the aggregated output set is the whole [lowWater] triangle,
    and the defuzzified output is within 1/10 of the triangle's centroid
    55/3, hence within 4 of the plateau point 15, at 11, 21, 41, 101 and
    201 sample points.  With the complete rule base of the sketch the same
    inputs fire the first rule alone and give the same output. *)
Theorem scenario_A_output (fb : Fallback) :
  List.map (firingStrength (withInputs (scenarioA 41 fb) 5 10 10))
           (fuzzyRules (withInputs (scenarioA 41 fb) 5 10 10)) = [1] /\
  (forall x, aggregated (withInputs (scenarioA 41 fb) 5 10 10) [lowWater] x
             == membership lowWater x) /\
  Forall (fun n => exists v,
              defuzzify (withInputs (scenarioA n fb) 5 10 10) 1 = Crisp v /\
              Qabs (v - (55 # 3)) <= 1 # 10 /\
              Qabs (v - 15) <= 4)
         [11; 21; 41; 101; 201]%nat /\
  List.map (firingStrength (withInputs (fuzzy (configured 101 fb)) 5 10 10))
           (fuzzyRules (withInputs (fuzzy (configured 101 fb)) 5 10 10))
  = [1; 0; 0; 0; 0; 0; 0; 0; 0; 0; 0; 0; 0; 0; 0] /\
  defuzzify (withInputs (fuzzy (configured 101 fb)) 5 10 10) 1 = Crisp (55 # 3).
Proof.
  split; [destruct fb; vm_compute; reflexivity |].
  split.
  { intros x. unfold aggregated, activation. simpl fold_right.
    replace (maxStrength (withInputs (scenarioA 41 fb) 5 10 10) lowWater) with 1
      by (destruct fb; vm_compute; reflexivity).
    pose proof (membership_range lowWater x) as [H0 H1].
    rewrite Qmin_unit_r by trivial. now apply Qmax_zero_r. }
  split.
  { repeat constructor;
      (eexists; split;
       [ destruct fb; vm_compute; reflexivity
       | split; vm_compute; discriminate ]). }
  split; destruct fb; vm_compute; reflexivity.
Qed.

End ScenarioA.

Section Rules.

(** C4.  [addRule] builds an antecedent exactly when at least one input
    set is given; its leaves are the given sets and nothing else, in the
    order temperature, humidity, soil, so there are 1, 2 or 3 of them, and
    with three sets the tree is AND(AND(temperature, humidity), soil).
    Every rule of the configured sketch has 1, 2 or 3 leaves. *)
Theorem addRule_antecedent_shape
        (tempSet humidSet soilSet : option FuzzySet) (outputSet : FuzzySet)
        (g : Globals) (n : nat) (fb : Fallback) :
  ((presentSets tempSet humidSet soilSet = [] /\
    fuzzyRules (fuzzy (globalsAfter (addRule tempSet humidSet soilSet outputSet) g))
    = fuzzyRules (fuzzy g))
   \/
   (exists a,
       fuzzyRules (fuzzy (globalsAfter (addRule tempSet humidSet soilSet outputSet) g))
       = fuzzyRules (fuzzy g) ++ [mkFuzzyRule (ruleNum g) a outputSet] /\
       leaves a = presentSets tempSet humidSet soilSet /\
       (1 <= List.length (leaves a) <= 3)%nat /\
       (forall t h s, tempSet = Some t -> humidSet = Some h -> soilSet = Some s ->
                      a = And (And (Leaf t) (Leaf h)) (Leaf s)))) /\
  Forall (fun r => (1 <= List.length (leaves (antecedent r)) <= 3)%nat)
         (fuzzyRules (fuzzy (configured n fb))).
Proof.
  split.
  - destruct tempSet as [t |], humidSet as [h |], soilSet as [s |];
      [ right; eexists; split; [reflexivity |];
        split; [reflexivity |];
        split; [simpl; lia |];
        intros ? ? ? E1 E2 E3; try discriminate;
        injection E1 as <-; injection E2 as <-; injection E3 as <-;
        reflexivity .. | ].
    left. split; reflexivity.
  - apply Forall_forall. intros r Hr.
    assert (B : forallb (fun r => (1 <=? List.length (leaves (antecedent r)))%nat
                                  && (List.length (leaves (antecedent r)) <=? 3)%nat)
                        (fuzzyRules (fuzzy (configured n fb))) = true)
      by (vm_compute; reflexivity).
    rewrite forallb_forall in B. specialize (B r Hr).
    apply andb_true_iff in B. destruct B as [B1 B2].
    apply Nat.leb_le in B1, B2. lia.
Qed.

(** C5, as the code has it.  [addRule] with no input set writes an error
    line to the serial port and returns: no rule is added, the rule
    counter is not advanced, no global changes, and whatever statement
    follows runs as if the call had not been made. *)
Theorem addRule_without_input_is_dropped (outputSet : FuzzySet) (g : Globals) :
  addRule None None None outputSet g
  = (tt, g, [OnSerial (Serial_println "Error: Rule needs at least one input set")]) /\
  (forall m : M unit,
      globalsAfter (addRule None None None outputSet ;; m) g = globalsAfter m g) /\
  (forall env,
      engineCalls (eventsOf (loop env) (globalsAfter (addRule None None None outputSet) g))
      = engineCalls (eventsOf (loop env) g)).
Proof.
  split; [reflexivity |].
  split.
  - intros m. unfold globalsAfter, bind. simpl.
    destruct (m g) as [[u g'] es]. reflexivity.
  - intros env. unfold globalsAfter at 1. reflexivity.
Qed.

(** C5, as the claim states it, fails: after a set-up that contains a rule
    without input set, the first pass of [loop] with valid readings runs
    the three [setInput] calls, [fuzzify] and [defuzzify]. *)
Lemma empty_rule_reaches_evaluation :
  engineCalls
    (eventsOf (loop (mkEnv 2000 (Fin 5) (Fin 10) 3685))
              (globalsAfter setupWithEmptyRule (initialGlobals 101 Midpoint)))
  = [ call_setInput 1 5; call_setInput 2 10; call_setInput 3 (10498563 # 1048576);
      call_fuzzify; call_defuzzify 1 ].
Proof. vm_compute. reflexivity. Qed.

End Rules.

Section Loop.

Lemma bind_globals {A B : Type} (m : M A) (k : A -> M B) (g : Globals) :
  globalsAfter (bind m k) g = globalsAfter (k (fst (fst (m g)))) (globalsAfter m g).
Proof.
  unfold globalsAfter, bind.
  destruct (m g) as [[a g1] e1]; simpl.
  destruct (k a g1) as [[b g2] e2]; reflexivity.
Qed.

Lemma bind_events {A B : Type} (m : M A) (k : A -> M B) (g : Globals) :
  eventsOf (bind m k) g
  = eventsOf m g ++ eventsOf (k (fst (fst (m g)))) (globalsAfter m g).
Proof.
  unfold eventsOf, globalsAfter, bind.
  destruct (m g) as [[a g1] e1]; simpl.
  destruct (k a g1) as [[b g2] e2]; reflexivity.
Qed.

Lemma engineCalls_app (es fs : list Event) :
  engineCalls (es ++ fs) = engineCalls es ++ engineCalls fs.
Proof. unfold engineCalls. apply flat_map_app. Qed.

Lemma engineCalls_tft (ops : list TftOp) : engineCalls (List.map OnTft ops) = [].
Proof. induction ops; simpl; trivial. Qed.

(** The two sampling tasks emit nothing and leave the engine, the display
    and the pump power alone. *)
Lemma sampling_is_silent (env : Env) (g : Globals) :
  eventsOf (readDht env ;; readSoil env) g = [] /\
  fuzzy (sampled env g) = fuzzy g /\
  myDisplay (sampled env g) = myDisplay g /\
  currentPumpPower (sampled env g) = currentPumpPower g /\
  lastLogicDisplayTime (sampled env g) = lastLogicDisplayTime g.
Proof.
  unfold sampled, readDht, readSoil, globalsAfter, eventsOf, bind, gets, modify, when, ret.
  simpl.
  destruct (ulong_sub (millis env) (lastDhtReadTime g) >=? dhtReadInterval)%Z;
    simpl;
    [ destruct (isnan (readTemperature env)), (isnan (readHumidity env)); simpl | ];
    destruct (ulong_sub (millis env) (lastSoilReadTime g) >=? soilReadInterval)%Z;
    simpl; repeat split.
Qed.

Lemma seq_assoc (m k p : M unit) (g : Globals) :
  globalsAfter (m ;; k ;; p) g = globalsAfter p (globalsAfter (m ;; k) g) /\
  eventsOf (m ;; k ;; p) g
  = eventsOf (m ;; k) g ++ eventsOf p (globalsAfter (m ;; k) g).
Proof.
  unfold globalsAfter, eventsOf, bind.
  destruct (m g) as [[a g1] e1]; simpl.
  destruct (k g1) as [[b g2] e2]; simpl.
  destruct (p g2) as [[c g3] e3]; simpl.
  split; [reflexivity | apply app_assoc].
Qed.

Lemma loop_globals (env : Env) (g : Globals) :
  globalsAfter (loop env) g = globalsAfter (processLogic env) (sampled env g).
Proof. unfold loop, sampled. apply seq_assoc. Qed.

Lemma loop_events (env : Env) (g : Globals) :
  eventsOf (loop env) g = eventsOf (processLogic env) (sampled env g).
Proof.
  pose proof (sampling_is_silent env g) as (E & _).
  unfold loop, sampled.
  rewrite (proj2 (seq_assoc _ _ _ g)), E. reflexivity.
Qed.

End Loop.

Section Inference.

Lemma keepsReadings_seq (m k : M unit) :
  keepsReadings m -> keepsReadings k -> keepsReadings (m ;; k).
Proof.
  intros Hm Hk g. rewrite bind_globals.
  destruct (Hk (globalsAfter m g)) as (K1 & K2 & K3).
  destruct (Hm g) as (M1 & M2 & M3).
  rewrite K1, K2, K3. auto.
Qed.

Lemma callsOf_seq (m k : M unit) (cs ds : list EngineCall) :
  callsOf m cs -> callsOf k ds -> callsOf (m ;; k) (cs ++ ds).
Proof.
  intros Hm Hk g. rewrite bind_events, engineCalls_app, Hm, Hk. reflexivity.
Qed.

Lemma displayUpdate_keeps : keepsReadings displayUpdate.
Proof.
  intros g. unfold displayUpdate, globalsAfter.
  destruct (updateValues _ _ _ _ _) as [d ops]. repeat split.
Qed.

Lemma displayUpdate_calls : callsOf displayUpdate [].
Proof.
  intros g. unfold displayUpdate, eventsOf.
  destruct (updateValues _ _ _ _ _) as [d ops]. apply engineCalls_tft.
Qed.

Lemma displayUpdate_engine (g : Globals) :
  fuzzy (globalsAfter displayUpdate g) = fuzzy g /\
  currentPumpPower (globalsAfter displayUpdate g) = currentPumpPower g.
Proof.
  unfold displayUpdate, globalsAfter.
  destruct (updateValues _ _ _ _ _) as [d ops]. split; reflexivity.
Qed.

Lemma runSetInput_keeps (i : Z) (x : Q) : keepsReadings (runSetInput i x).
Proof. intros g. repeat split. Qed.

Lemma runSetInput_calls (i : Z) (x : Q) : callsOf (runSetInput i x) [call_setInput i x].
Proof. intros g. reflexivity. Qed.

Lemma runFuzzify_keeps : keepsReadings runFuzzify.
Proof. intros g. repeat split. Qed.

Lemma runFuzzify_calls : callsOf runFuzzify [call_fuzzify].
Proof. intros g. reflexivity. Qed.

Lemma runDefuzzify_keeps : keepsReadings runDefuzzify.
Proof.
  intros g. unfold runDefuzzify, globalsAfter, bind, emit, gets, modify. cbn [fst snd].
  destruct (defuzzify (fuzzy g) 1); repeat split.
Qed.

Lemma runDefuzzify_calls : callsOf runDefuzzify [call_defuzzify 1].
Proof.
  intros g. unfold runDefuzzify, eventsOf, bind, emit, gets, modify. cbn [fst snd].
  destruct (defuzzify (fuzzy g) 1); reflexivity.
Qed.

Lemma serialReport_keeps : keepsReadings serialReport.
Proof. intros g. repeat split. Qed.

Lemma serialReport_calls : callsOf serialReport [].
Proof. intros g. reflexivity. Qed.

Lemma runInference_keeps (t h s : Q) : keepsReadings (runInference t h s).
Proof.
  unfold runInference.
  repeat first [ apply runSetInput_keeps | apply runFuzzify_keeps
               | apply runDefuzzify_keeps | apply serialReport_keeps
               | apply displayUpdate_keeps | apply keepsReadings_seq ].
Qed.

Lemma runInference_calls (t h s : Q) :
  callsOf (runInference t h s) (inferenceCalls t h s).
Proof.
  unfold runInference.
  change (inferenceCalls t h s)
    with ([call_setInput 1 t] ++ [call_setInput 2 h] ++ [call_setInput 3 s]
          ++ [call_fuzzify] ++ [call_defuzzify 1] ++ [] ++ []).
  repeat first [ apply runSetInput_calls | apply runFuzzify_calls
               | apply runDefuzzify_calls | apply serialReport_calls
               | apply displayUpdate_calls | apply callsOf_seq ].
Qed.

Lemma waitForSensors_keeps : keepsReadings waitForSensors.
Proof.
  unfold waitForSensors. apply keepsReadings_seq.
  - apply displayUpdate_keeps.
  - intros g. repeat split.
Qed.

Lemma waitForSensors_calls : callsOf waitForSensors [].
Proof.
  unfold waitForSensors. change (@nil EngineCall) with (@nil EngineCall ++ []).
  apply callsOf_seq.
  - apply displayUpdate_calls.
  - intros g. reflexivity.
Qed.

Lemma waitForSensors_engine (g : Globals) :
  fuzzy (globalsAfter waitForSensors g) = fuzzy g /\
  currentPumpPower (globalsAfter waitForSensors g) = currentPumpPower g.
Proof.
  unfold waitForSensors. rewrite bind_globals.
  unfold emit; unfold globalsAfter at 1 3; cbn [fst snd].
  apply displayUpdate_engine.
Qed.

(** Task 3, unfolded once: the test of the interval, the update of the
    time stamp and the choice of the branch. *)
Lemma processLogic_unfold (env : Env) (g : Globals) :
  processLogic env g
  = if logicDue env g then
      match currentTemperature g, currentHumidity g, currentSoilMoisture g with
      | Fin t, Fin h, Fin s =>
          runInference t h s (set_lastLogicDisplayTime (millis env) g)
      | _, _, _ => waitForSensors (set_lastLogicDisplayTime (millis env) g)
      end
    else (tt, g, []).
Proof.
  unfold processLogic, logicDue, when, bind at 1, gets at 1. cbn [fst snd].
  destruct (ulong_sub (millis env) (lastLogicDisplayTime g) >=? logicDisplayInterval)%Z;
    [ | reflexivity ].
  unfold bind at 1, modify at 1.
  unfold bind at 1, gets at 1. unfold bind at 1, gets at 1. unfold bind at 1, gets at 1.
  cbn [currentTemperature currentHumidity currentSoilMoisture set_lastLogicDisplayTime].
  destruct (currentTemperature g) as [| t], (currentHumidity g) as [| h],
           (currentSoilMoisture g) as [| s];
    match goal with
    | |- context [waitForSensors ?x] => destruct (waitForSensors x) as [[u g2] es]
    | |- context [runInference ?a ?b ?c ?x] =>
        destruct (runInference a b c x) as [[u g2] es]
    end; destruct u; reflexivity.
Qed.


(** What task 3 does to globals [gs]. *)
Lemma processLogic_effect (env : Env) (gs : Globals) :
  engineCalls (eventsOf (processLogic env) gs)
  = (if logicDue env gs then
       match currentTemperature gs, currentHumidity gs, currentSoilMoisture gs with
       | Fin t, Fin h, Fin s => inferenceCalls t h s
       | _, _, _ => []
       end
     else []) /\
  (isnan (currentTemperature gs) || isnan (currentHumidity gs)
   || isnan (currentSoilMoisture gs) = true ->
   fuzzy (globalsAfter (processLogic env) gs) = fuzzy gs /\
   currentPumpPower (globalsAfter (processLogic env) gs) = currentPumpPower gs) /\
  currentTemperature (globalsAfter (processLogic env) gs) = currentTemperature gs /\
  currentHumidity (globalsAfter (processLogic env) gs) = currentHumidity gs /\
  currentSoilMoisture (globalsAfter (processLogic env) gs) = currentSoilMoisture gs.
Proof.
  unfold eventsOf, globalsAfter.
  rewrite processLogic_unfold.
  destruct (logicDue env gs).
  2: { cbn [fst snd]. repeat split; trivial. }
  pose proof (waitForSensors_calls (set_lastLogicDisplayTime (millis env) gs)) as Wc.
  pose proof (waitForSensors_keeps (set_lastLogicDisplayTime (millis env) gs))
    as (W1 & W2 & W3).
  pose proof (waitForSensors_engine (set_lastLogicDisplayTime (millis env) gs))
    as (W4 & W5).
  unfold eventsOf, globalsAfter in Wc, W1, W2, W3, W4, W5.
  cbn [currentTemperature currentHumidity currentSoilMoisture fuzzy currentPumpPower
       set_lastLogicDisplayTime] in W1, W2, W3, W4, W5.
  destruct (currentTemperature gs) as [| t] eqn:Et;
    [ | destruct (currentHumidity gs) as [| h] eqn:Eh;
        [ | destruct (currentSoilMoisture gs) as [| s] eqn:Es ] ];
    try (repeat split; trivial; congruence).
  pose proof (runInference_calls t h s (set_lastLogicDisplayTime (millis env) gs)) as Rc.
  pose proof (runInference_keeps t h s (set_lastLogicDisplayTime (millis env) gs))
    as (R1 & R2 & R3).
  unfold eventsOf, globalsAfter in Rc, R1, R2, R3.
  cbn [currentTemperature currentHumidity currentSoilMoisture
       set_lastLogicDisplayTime] in R1, R2, R3.
  repeat split; try congruence;
    match goal with H : _ || _ = true |- _ => cbn [isnan orb] in H; discriminate end.
Qed.

(** C6.  In every pass of [loop] the engine is called only when task 3 is
    due and the three stored readings are all valid, and then with these
    three values; when any of temperature, humidity or soil moisture is
    NaN, no [setInput], [fuzzify] or [defuzzify] call is made, and the
    engine and the pump power stay as they were.  The readings are the ones
    task 3 tests: the sampling tasks of the same pass have run, and task 3
    does not change them. *)
Theorem loop_skips_inference_on_nan (env : Env) (g : Globals) :
  engineCalls (eventsOf (loop env) g)
  = (if logicDue env g then
       match currentTemperature (sampled env g), currentHumidity (sampled env g),
             currentSoilMoisture (sampled env g) with
       | Fin t, Fin h, Fin s => inferenceCalls t h s
       | _, _, _ => []
       end
     else []) /\
  (isnan (currentTemperature (sampled env g))
   || isnan (currentHumidity (sampled env g))
   || isnan (currentSoilMoisture (sampled env g)) = true ->
   engineCalls (eventsOf (loop env) g) = [] /\
   fuzzy (globalsAfter (loop env) g) = fuzzy g /\
   currentPumpPower (globalsAfter (loop env) g) = currentPumpPower g) /\
  currentTemperature (globalsAfter (loop env) g) = currentTemperature (sampled env g) /\
  currentHumidity (globalsAfter (loop env) g) = currentHumidity (sampled env g) /\
  currentSoilMoisture (globalsAfter (loop env) g) = currentSoilMoisture (sampled env g).
Proof.
  pose proof (sampling_is_silent env g) as (_ & Sf & _ & Sp & Sl).
  destruct (processLogic_effect env (sampled env g)) as (Pc & Pn & P1 & P2 & P3).
  rewrite loop_events, loop_globals.
  replace (logicDue env (sampled env g)) with (logicDue env g) in Pc
    by (unfold logicDue; now rewrite Sl).
  split; [exact Pc |].
  split; [| now repeat split].
  intros Hn. destruct (Pn Hn) as [Pf Pp].
  rewrite Pf, Pp, Sf, Sp. repeat split.
  rewrite Pc. destruct (logicDue env g); trivial.
  destruct (currentTemperature (sampled env g)), (currentHumidity (sampled env g)),
           (currentSoilMoisture (sampled env g)); trivial; discriminate.
Qed.

Lemma loop_skips_inference_on_nan_witness :
  isnan (currentTemperature (sampled (mkEnv 1000 NaN (Fin 40) 2000) (configured 101 Midpoint)))
  || isnan (currentHumidity (sampled (mkEnv 1000 NaN (Fin 40) 2000) (configured 101 Midpoint)))
  || isnan (currentSoilMoisture (sampled (mkEnv 1000 NaN (Fin 40) 2000) (configured 101 Midpoint)))
  = true /\
  logicDue (mkEnv 1000 NaN (Fin 40) 2000) (configured 101 Midpoint) = true /\
  engineCalls (eventsOf (loop (mkEnv 1000 NaN (Fin 40) 2000)) (configured 101 Midpoint)) = [].
Proof.
  split; [vm_compute; reflexivity |].
  split; [vm_compute; reflexivity |].
  apply (proj1 (proj2 (loop_skips_inference_on_nan
                         (mkEnv 1000 NaN (Fin 40) 2000) (configured 101 Midpoint)))).
  vm_compute; reflexivity.
Defined.

Lemma readDht_keeps_soil_time (env : Env) (g : Globals) :
  lastSoilReadTime (globalsAfter (readDht env) g) = lastSoilReadTime g.
Proof.
  unfold readDht, globalsAfter, bind, gets, modify, when, ret. simpl.
  destruct (ulong_sub (millis env) (lastDhtReadTime g) >=? dhtReadInterval)%Z;
    simpl; trivial.
  destruct (isnan (readTemperature env)), (isnan (readHumidity env)); reflexivity.
Qed.

Lemma constrain_range (amt low high : Q) :
  low <= high -> low <= constrain amt low high <= high.
Proof.
  intros H. unfold constrain.
  destruct (Qltb amt low) eqn:E1; [lra |].
  apply Qltb_ge in E1.
  destruct (Qltb high amt) eqn:E2; [lra |].
  apply Qltb_ge in E2. lra.
Qed.

Lemma adcReadings_complete (raw : Z) : (0 <= raw <= 4095)%Z -> In raw adcReadings.
Proof.
  intros H. unfold adcReadings.
  apply in_map_iff. exists (Z.to_nat raw). split.
  - apply Z2Nat.id. lia.
  - apply in_seq. lia.
Qed.

Lemma soilCheck_all : forallb soilCheck adcReadings = true.
Proof. vm_compute. reflexivity. Qed.

(** C10, as the code has it.  When the soil task is due, the stored soil
    moisture is [soilPercent] of the raw reading (and task 3 leaves it
    there).  For a raw reading in [[0,4095]] it is the [float] value of
    [(1.0 - raw/4095.0) * 100.0], computed in [double], constrained to
    [[0,100]]; it lies in [[0,100]] and within 2^-18 of the exact value of
    the formula.  A raw reading of 4095 or more gives exactly 0, a raw
    reading of 0 gives 100. *)
Theorem soil_moisture_percentage (env : Env) (g : Globals) :
  (soilDue env g = true ->
   currentSoilMoisture (globalsAfter (loop env) g) = soilPercent (analogRead env)) /\
  (forall raw, (0 <= raw <= 4095)%Z ->
               soilPercent raw
               = stored (to_float (fconstrain (soilFormula raw)
                                              (binary64 0) (binary64 100)))) /\
  (forall raw, (0 <= raw <= 4095)%Z ->
               exists q, soilPercent raw = Fin q /\ 0 <= q <= 100 /\
                         Qabs (q - soilExact raw) <= 1 # 262144) /\
  (forall raw, (4095 <= raw)%Z -> soilPercent raw = Fin 0) /\
  (exists q, soilPercent 0 = Fin q /\ q == 100).
Proof.
  split.
  { intros Due.
    rewrite loop_globals.
    destruct (processLogic_effect env (sampled env g)) as (_ & _ & _ & _ & ->).
    unfold sampled. rewrite bind_globals.
    unfold soilDue in Due.
    unfold readSoil, globalsAfter at 1, bind at 1, gets at 1. cbn [fst snd].
    change (snd (fst (readDht env g))) with (globalsAfter (readDht env) g).
    rewrite readDht_keeps_soil_time, Due. reflexivity. }
  split.
  { intros raw [H0 H1]. unfold soilPercent.
    destruct (raw >=? 4095)%Z eqn:E; [ | reflexivity ].
    assert (raw = 4095%Z) by lia. subst raw. vm_compute. reflexivity. }
  split.
  { intros raw H.
    pose proof soilCheck_all as A. rewrite forallb_forall in A.
    specialize (A raw (adcReadings_complete raw H)).
    unfold soilCheck in A. destruct (soilPercent raw) as [| q]; [discriminate |].
    apply andb_true_iff in A. destruct A as [A A3].
    apply andb_true_iff in A. destruct A as [A1 A2].
    apply Qle_bool_iff in A1, A2, A3.
    exists q. auto. }
  split.
  { intros raw H. unfold soilPercent.
    replace (raw >=? 4095)%Z with true by (symmetry; apply Z.geb_le; lia).
    vm_compute. reflexivity. }
  eexists. split; [vm_compute; reflexivity | vm_compute; reflexivity].
Qed.

Lemma soil_moisture_percentage_witness :
  soilDue (mkEnv 1000 NaN (Fin 40) 2000) (configured 101 Midpoint) = true /\
  currentSoilMoisture
    (globalsAfter (loop (mkEnv 1000 NaN (Fin 40) 2000)) (configured 101 Midpoint))
  = soilPercent 2000.
Proof.
  split; [vm_compute; reflexivity |].
  apply (proj1 (soil_moisture_percentage
                  (mkEnv 1000 NaN (Fin 40) 2000) (configured 101 Midpoint))).
  vm_compute; reflexivity.
Defined.

(** C10, as the claim states it, fails: at the raw reading 2000 the
    stored value is the [float] 13411274 * 2^-18 = 6705637/131072, which is
    not the exact value 41900/819 of
    [constrain((1 - 2000/4095) * 100, 0, 100)]. *)
Lemma soil_reading_2000_is_rounded :
  soilPercent 2000 = Fin (13411274 # 262144) /\
  13411274 # 262144 == 6705637 # 131072 /\
  constrain ((1 - inject_Z 2000 / 4095) * 100) 0 100 == 41900 # 819 /\
  ~ 13411274 # 262144 == constrain ((1 - inject_Z 2000 / 4095) * 100) 0 100.
Proof.
  split; [vm_compute; reflexivity |].
  split; [reflexivity |].
  split; [vm_compute; reflexivity |].
  vm_compute. discriminate.
Qed.

End Inference.

Section NoFire.

Lemma maxStrength_zero (f : Fuzzy) (s : FuzzySet) :
  (forall r, In r (fuzzyRules f) -> sameSet (consequent r) s = true ->
             firingStrength f r == 0) ->
  maxStrength f s == 0.
Proof.
  unfold maxStrength.
  induction (fuzzyRules f) as [| r rs IH]; intros H; simpl.
  - reflexivity.
  - assert (IH' : fold_right
                    (fun r acc => if sameSet (consequent r) s
                                  then Qmax (firingStrength f r) acc else acc)
                    0 rs == 0)
      by (apply IH; intros; apply H; simpl; auto).
    destruct (sameSet (consequent r) s) eqn:E; [ | exact IH' ].
    assert (Hr : firingStrength f r == 0) by (apply H; simpl; auto).
    rewrite Q.max_l; [exact Hr | rewrite IH', Hr; apply Qle_refl].
Qed.

Lemma aggregated_zero (f : Fuzzy) (sets : list FuzzySet) (x : Q) :
  (forall s, In s sets -> maxStrength f s == 0) ->
  aggregated f sets x == 0.
Proof.
  unfold aggregated.
  induction sets as [| s rest IH]; intros H; simpl.
  - reflexivity.
  - assert (A : activation f s x == 0).
    { unfold activation.
      assert (Hs : maxStrength f s == 0) by (apply H; simpl; auto).
      pose proof (membership_range s x) as [M0 _].
      rewrite Q.min_r; [exact Hs | rewrite Hs; exact M0]. }
    assert (R : fold_right (fun s acc => Qmax (activation f s x) acc) 0 rest == 0)
      by (apply IH; intros; apply H; simpl; auto).
    rewrite Q.max_l; [exact A | rewrite A, R; apply Qle_refl].
Qed.

Lemma Qsum_zero (l : list Q) : (forall x, In x l -> x == 0) -> Qsum l == 0.
Proof.
  unfold Qsum. induction l as [| a l IH]; intros H; simpl.
  - reflexivity.
  - rewrite (H a) by (simpl; auto).
    rewrite IH by (intros; apply H; simpl; auto).
    reflexivity.
Qed.

Lemma noneFires_sound (f : Fuzzy) (o : Z) :
  noneFires f o = true ->
  forall r, In r (fuzzyRules f) -> targets f o r = true -> firingStrength f r == 0.
Proof.
  unfold noneFires. intros H r Hin Ht.
  rewrite forallb_forall in H. specialize (H r Hin).
  rewrite Ht in H. simpl in H. now apply Qeq_bool_iff.
Qed.

(** C7.  When the inputs the rules refer to are set and every rule that
    targets output [o] has firing strength 0, every height of the
    aggregated set is 0, the centroid has no denominator, and [defuzzify]
    returns the fallback value: the output held from the last cycle, or the
    midpoint of the universe.  It is a number, not an error; the sketch
    stores it as the pump power. *)
Theorem defuzzify_no_fire (f : Fuzzy) (o : Z) :
  ready f = true ->
  (forall r, In r (fuzzyRules f) -> targets f o r = true -> firingStrength f r == 0) ->
  (forall x, aggregated f (outputSets f o) x == 0) /\
  centroid f (outputSets f o) = None /\
  defuzzify f o = Crisp (fallbackValue f o) /\
  (heldOutput f o = Some (fallbackValue f o) \/
   fallbackValue f o = midpoint (outputSets f o)) /\
  (o = 1%Z -> forall g, fuzzy g = f ->
   currentPumpPower (globalsAfter runDefuzzify g) = Fin (fallbackValue f o)).
Proof.
  intros Hready Hzero.
  assert (Hagg : forall x, aggregated f (outputSets f o) x == 0).
  { intros x. apply aggregated_zero. intros s Hs.
    apply maxStrength_zero. intros r Hr Hsame.
    apply Hzero; trivial.
    unfold targets. apply existsb_exists. exists s. auto. }
  assert (Hcen : centroid f (outputSets f o) = None).
  { unfold centroid.
    set (xs := samplePoints _ _ _).
    assert (D : Qsum (List.map (aggregated f (outputSets f o)) xs) == 0).
    { apply Qsum_zero. intros y Hy.
      apply in_map_iff in Hy. destruct Hy as (x & <- & _). apply Hagg. }
    apply Qeq_bool_iff in D. now rewrite D. }
  assert (Hdef : defuzzify f o = Crisp (fallbackValue f o)).
  { unfold defuzzify. now rewrite Hready, Hcen. }
  repeat split; trivial.
  - unfold fallbackValue.
    destruct (fallback f), (heldOutput f o); auto.
  - intros -> g <-.
    unfold runDefuzzify, globalsAfter, bind, emit, gets, modify. cbn [fst snd].
    rewrite Hdef. reflexivity.
Qed.

Lemma defuzzify_no_fire_witness :
  ready (withInputs (fuzzy (configured 101 Midpoint)) 50 10 10) = true /\
  defuzzify (withInputs (fuzzy (configured 101 Midpoint)) 50 10 10) 1 = Crisp (100 # 2).
Proof.
  assert (R : ready (withInputs (fuzzy (configured 101 Midpoint)) 50 10 10) = true)
    by (vm_compute; reflexivity).
  split; [exact R |].
  refine (proj1 (proj2 (proj2
            (defuzzify_no_fire (withInputs (fuzzy (configured 101 Midpoint)) 50 10 10) 1
                               R _)))).
  apply noneFires_sound. vm_compute. reflexivity.
Defined.

End NoFire.

Section DisplayUpdate.

Lemma needsRedraw_iff (v prev : float) (k : Q) :
  needsRedraw v prev k = true <->
  v = NaN \/ prev = NaN \/
  exists a b, v = Fin a /\ prev = Fin b /\
              SFltb (binary64 k)
                    (to_double (SFabs (SFsub 24 128 (binary32 a) (binary32 b)))) = true.
Proof.
  unfold needsRedraw, fgt, fabs, fsub.
  destruct v as [| a], prev as [| b]; cbn [isnan orb ieee].
  - intuition.
  - intuition.
  - intuition.
  - split.
    + intros H. right. right. exists a, b. auto.
    + intros [H | [H | (a' & b' & Ha & Hb & H)]]; try discriminate.
      injection Ha as <-. injection Hb as <-. exact H.
Qed.

(** The state and the calls of [updateValues], block by block. *)
Lemma updateValues_blocks (d : FuzzyDisplay) (temp humid soil pump : float) :
  fst (updateValues d temp humid soil pump)
  = mkFuzzyDisplay
      (if needsRedraw temp (prevTemp d) (5 # 100) then temp else prevTemp d)
      (if needsRedraw humid (prevHumid d) (5 # 100) then humid else prevHumid d)
      (if needsRedraw soil (prevSoil d) (5 # 100) then soil else prevSoil d)
      (if needsRedraw pump (prevPump d) (5 # 10) then pump else prevPump d) /\
  snd (updateValues d temp humid soil pump)
  = (if needsRedraw temp (prevTemp d) (5 # 100) then drawTemp temp else [])
    ++ (if needsRedraw humid (prevHumid d) (5 # 100) then drawPercent 65 humid else [])
    ++ (if needsRedraw soil (prevSoil d) (5 # 100) then drawPercent 123 soil else [])
    ++ (if needsRedraw pump (prevPump d) (5 # 10) then drawPump pump else [])
    ++ (if needsRedraw pump (prevPump d) (5 # 10) || feq (prevPump d) (-9999 # 10)
        then drawBar pump else []).
Proof.
  unfold updateValues.
  destruct d as [pt ph ps pp]; cbn [prevTemp prevHumid prevSoil prevPump].
  destruct (needsRedraw temp pt (5 # 100));
    cbn [prevTemp prevHumid prevSoil prevPump];
    destruct (needsRedraw humid ph (5 # 100));
    cbn [prevTemp prevHumid prevSoil prevPump];
    destruct (needsRedraw soil ps (5 # 100));
    cbn [prevTemp prevHumid prevSoil prevPump];
    destruct (needsRedraw pump pp (5 # 10));
    cbn [prevTemp prevHumid prevSoil prevPump fst snd orb]; split; reflexivity.
Qed.

Lemma clearedAreas_app (xs ys : list TftOp) :
  clearedAreas (xs ++ ys) = clearedAreas xs ++ clearedAreas ys.
Proof. unfold clearedAreas. apply flat_map_app. Qed.

Lemma clearedAreas_drawTemp (v : float) : clearedAreas (drawTemp v) = [tempArea].
Proof. destruct v; reflexivity. Qed.

Lemma clearedAreas_drawPercent (x : Z) (v : float) :
  clearedAreas (drawPercent x v) = [(x, 40, 40, 11)%Z].
Proof. destruct v; reflexivity. Qed.

Lemma clearedAreas_drawPump (v : float) : clearedAreas (drawPump v) = [pumpArea].
Proof. destruct v; reflexivity. Qed.

Lemma clearedAreas_drawBar (v : float) : clearedAreas (drawBar v) = [barArea].
Proof. reflexivity. Qed.

Lemma clearedAreas_if (b : bool) (ops : list TftOp) (area : Z * Z * Z * Z) :
  clearedAreas ops = [area] ->
  clearedAreas (if b then ops else []) = if b then [area] else [].
Proof. destruct b; auto. Qed.

(** C8, as the code has it.  [updateValues] redraws a field and stores
    its new value exactly when the new value or the stored one is NaN or
    the [float] difference new - stored exceeds the threshold in absolute
    value (the [double] 0.05 for temperature, humidity and soil, 0.5 for
    the pump); otherwise it stores nothing for the field and no call of
    its block is made, so the field's area is not cleared.  A redrawn
    field is cleared and its value printed, "---" or "--" for NaN.  The
    bar below the pump value is redrawn with the pump value, or when the
    stored pump value equals the [double] -999.9, which the value of a
    new display does not. *)
Theorem updateValues_redraws_on_change (d : FuzzyDisplay) (temp humid soil pump : float) :
  (forall v prev k,
      needsRedraw v prev k = true <->
      v = NaN \/ prev = NaN \/
      exists a b, v = Fin a /\ prev = Fin b /\
                  SFltb (binary64 k)
                        (to_double (SFabs (SFsub 24 128 (binary32 a) (binary32 b))))
                  = true) /\
  prevTemp (fst (updateValues d temp humid soil pump))
  = (if needsRedraw temp (prevTemp d) (5 # 100) then temp else prevTemp d) /\
  prevHumid (fst (updateValues d temp humid soil pump))
  = (if needsRedraw humid (prevHumid d) (5 # 100) then humid else prevHumid d) /\
  prevSoil (fst (updateValues d temp humid soil pump))
  = (if needsRedraw soil (prevSoil d) (5 # 100) then soil else prevSoil d) /\
  prevPump (fst (updateValues d temp humid soil pump))
  = (if needsRedraw pump (prevPump d) (5 # 10) then pump else prevPump d) /\
  snd (updateValues d temp humid soil pump)
  = (if needsRedraw temp (prevTemp d) (5 # 100) then drawTemp temp else [])
    ++ (if needsRedraw humid (prevHumid d) (5 # 100) then drawPercent 65 humid else [])
    ++ (if needsRedraw soil (prevSoil d) (5 # 100) then drawPercent 123 soil else [])
    ++ (if needsRedraw pump (prevPump d) (5 # 10) then drawPump pump else [])
    ++ (if needsRedraw pump (prevPump d) (5 # 10) || feq (prevPump d) (-9999 # 10)
        then drawBar pump else []) /\
  clearedAreas (snd (updateValues d temp humid soil pump))
  = (if needsRedraw temp (prevTemp d) (5 # 100) then [tempArea] else [])
    ++ (if needsRedraw humid (prevHumid d) (5 # 100) then [humidArea] else [])
    ++ (if needsRedraw soil (prevSoil d) (5 # 100) then [soilArea] else [])
    ++ (if needsRedraw pump (prevPump d) (5 # 10) then [pumpArea] else [])
    ++ (if needsRedraw pump (prevPump d) (5 # 10) || feq (prevPump d) (-9999 # 10)
        then [barArea] else []) /\
  (forall q,
      drawTemp (Fin q)
      = [ fillRect 10 40 45 11 ST77XX_BLACK; setTextSize 1;
          setTextColor ST77XX_WHITE ST77XX_BLACK; setCursor 10 40;
          printFloat q 1;
          drawPixel (degreeX q) 40 ST77XX_WHITE;
          drawPixel (degreeX q - 1) 40 ST77XX_WHITE;
          drawPixel (degreeX q) 41 ST77XX_WHITE;
          drawPixel (degreeX q - 1) 41 ST77XX_WHITE;
          setCursor (degreeX q + 2) 40; print "C" ]) /\
  drawTemp NaN
  = [ fillRect 10 40 45 11 ST77XX_BLACK; setTextSize 1;
      setTextColor ST77XX_WHITE ST77XX_BLACK; setCursor 10 40; print "---" ] /\
  (forall x q,
      drawPercent x (Fin q)
      = [ fillRect x 40 40 11 ST77XX_BLACK; setTextSize 1;
          setTextColor ST77XX_WHITE ST77XX_BLACK; setCursor x 40;
          printFloat q 1; setCursorAfter 2 40; print "%" ]) /\
  (forall x,
      drawPercent x NaN
      = [ fillRect x 40 40 11 ST77XX_BLACK; setTextSize 1;
          setTextColor ST77XX_WHITE ST77XX_BLACK; setCursor x 40; print "---" ]) /\
  (forall q,
      drawPump (Fin q)
      = [ fillRect 55 74 70 16 ST77XX_BLACK; setTextSize 2;
          setTextColor (pumpColor q) ST77XX_BLACK; setCursor 55 74;
          printFloat (constrain q 0 100) (pumpDigits q) ]) /\
  drawPump NaN
  = [ fillRect 55 74 70 16 ST77XX_BLACK; setTextSize 2;
      setTextColor ST77XX_WHITE ST77XX_BLACK; setCursor 55 74; print "--" ] /\
  (forall cs dc rst, feq (prevPump (newFuzzyDisplay cs dc rst)) (-9999 # 10) = false).
Proof.
  destruct (updateValues_blocks d temp humid soil pump) as [Hd Hops].
  split; [exact needsRedraw_iff |].
  rewrite Hd, Hops. cbn [prevTemp prevHumid prevSoil prevPump].
  do 5 (split; [reflexivity |]).
  split.
  { rewrite !clearedAreas_app.
    rewrite (clearedAreas_if _ _ _ (clearedAreas_drawTemp temp)).
    rewrite (clearedAreas_if _ _ _ (clearedAreas_drawPercent 65 humid)).
    rewrite (clearedAreas_if _ _ _ (clearedAreas_drawPercent 123 soil)).
    rewrite (clearedAreas_if _ _ _ (clearedAreas_drawPump pump)).
    rewrite (clearedAreas_if _ _ _ (clearedAreas_drawBar pump)).
    reflexivity. }
  do 6 (split; [reflexivity |]).
  intros cs dc rst. vm_compute. reflexivity.
Qed.

(** C8, as the claim states it, fails: with the pump value 0.6f stored and
    0.1f passed in, the two differ by 1/2 + 3/2^27, more than 0.5, but
    their [float] difference is exactly 0.5: nothing is redrawn and the
    stored value stays. *)
Lemma pump_step_of_half_is_not_redrawn :
  5 # 10 < Qabs ((13421773 # 134217728) - (10066330 # 16777216)) /\
  stored (binary32 (1 # 10)) = Fin (13421773 # 134217728) /\
  stored (binary32 (6 # 10)) = Fin (10066330 # 16777216) /\
  updateValues (mkFuzzyDisplay (Fin 21) (Fin 40) (Fin 10) (Fin (10066330 # 16777216)))
               (Fin 21) (Fin 40) (Fin 10) (Fin (13421773 # 134217728))
  = (mkFuzzyDisplay (Fin 21) (Fin 40) (Fin 10) (Fin (10066330 # 16777216)), []).
Proof.
  split; [vm_compute; reflexivity |].
  split; [vm_compute; reflexivity |].
  split; vm_compute; reflexivity.
Qed.

End DisplayUpdate.

Section PumpRendering.

Lemma to_long_range (q : Q) : 0 <= q <= 100 -> (0 <= to_long q <= 100)%Z.
Proof.
  destruct q as [n d]. unfold Qle, to_long; simpl. intros [H0 H1].
  assert (Hn : (0 <= n)%Z) by lia.
  rewrite Z.quot_div_nonneg by lia.
  split.
  - apply Z.div_pos; lia.
  - apply Z.div_le_upper_bound; lia.
Qed.

Lemma map_bar_range (x : Z) : (0 <= x <= 100)%Z -> (0 <= map x 0 100 0 140 <= 140)%Z.
Proof.
  intros H. unfold map.
  replace ((x - 0) * (140 - 0))%Z with (x * 140)%Z by lia.
  replace (100 - 0)%Z with 100%Z by lia.
  rewrite Z.quot_div_nonneg by lia.
  assert (0 <= x * 140 / 100)%Z by (apply Z.div_pos; lia).
  assert (x * 140 / 100 <= 140)%Z by (apply Z.div_le_upper_bound; lia).
  lia.
Qed.

Lemma barWidth_range (pump : float) : (0 <= barWidth pump <= 140)%Z.
Proof.
  destruct pump as [| q]; simpl; [lia |].
  apply map_bar_range, to_long_range, constrain_range. lra.
Qed.

Lemma green_in_block (b : bool) (ops : list TftOp) (x y w h : Z) :
  (forall x y w h, ~ In (fillRect x y w h ST77XX_GREEN) ops) ->
  ~ In (fillRect x y w h ST77XX_GREEN) (if b then ops else []).
Proof. destruct b; auto. Qed.

Lemma no_green_drawTemp (v : float) (x y w h : Z) :
  ~ In (fillRect x y w h ST77XX_GREEN) (drawTemp v).
Proof.
  destruct v; simpl; intros H;
    repeat (destruct H as [H | H]; [discriminate |]); exact H.
Qed.

Lemma no_green_drawPercent (p : Z) (v : float) (x y w h : Z) :
  ~ In (fillRect x y w h ST77XX_GREEN) (drawPercent p v).
Proof.
  destruct v; simpl; intros H;
    repeat (destruct H as [H | H]; [discriminate |]); exact H.
Qed.

Lemma no_green_drawPump (v : float) (x y w h : Z) :
  ~ In (fillRect x y w h ST77XX_GREEN) (drawPump v).
Proof.
  destruct v; simpl; intros H;
    repeat (destruct H as [H | H]; [discriminate |]); exact H.
Qed.

(** C9.  The pump value is printed as [constrain(pump, 0, 100)], which
    lies in [[0,100]]; the bar width is
    [map(constrain(pump, 0, 100), 0, 100, 0, 140)] and lies in [[0,140]]
    for every finite pump value; every green bar [updateValues] draws is
    the bar at (10,100) with that width.  When the pump value is NaN the
    text "--" is printed and the bar is drawn with width 0. *)
Theorem pump_rendering (d : FuzzyDisplay) (temp humid soil : float) :
  (forall q,
      drawPump (Fin q)
      = [ fillRect 55 74 70 16 ST77XX_BLACK; setTextSize 2;
          setTextColor (pumpColor q) ST77XX_BLACK; setCursor 55 74;
          printFloat (constrain q 0 100) (pumpDigits q) ] /\
      0 <= constrain q 0 100 <= 100) /\
  (forall q,
      barWidth (Fin q) = map (to_long (constrain q 0 100)) 0 100 0 140 /\
      (0 <= barWidth (Fin q) <= 140)%Z) /\
  (forall pump x y w h,
      In (fillRect x y w h ST77XX_GREEN) (snd (updateValues d temp humid soil pump)) ->
      (x, y, h) = (10, 100, 15)%Z /\ w = barWidth pump /\ (0 <= w <= 140)%Z) /\
  barWidth NaN = 0%Z /\
  In (print "--") (snd (updateValues d temp humid soil NaN)) /\
  In (fillRect 10 100 0 15 ST77XX_GREEN) (snd (updateValues d temp humid soil NaN)).
Proof.
  split.
  { intros q. split; [reflexivity | apply constrain_range; lra]. }
  split.
  { intros q. split; [reflexivity | apply barWidth_range]. }
  split.
  { intros pump x y w h.
    rewrite (proj2 (updateValues_blocks d temp humid soil pump)).
    rewrite !in_app_iff.
    intros [H | [H | [H | [H | H]]]].
    - exfalso. revert H. apply green_in_block; trivial. intros. apply no_green_drawTemp.
    - exfalso. revert H. apply green_in_block; trivial. intros. apply no_green_drawPercent.
    - exfalso. revert H. apply green_in_block; trivial. intros. apply no_green_drawPercent.
    - exfalso. revert H. apply green_in_block; trivial. intros. apply no_green_drawPump.
    - destruct (_ || _); [ | contradiction ].
      simpl in H. destruct H as [H | [H | [H | []]]]; try discriminate.
      injection H as <- <- <- <-.
      repeat split. apply barWidth_range. apply barWidth_range. }
  split; [reflexivity |].
  rewrite (proj2 (updateValues_blocks d temp humid soil NaN)).
  change (needsRedraw NaN (prevPump d) (5 # 10)) with true.
  cbn [orb]. rewrite !in_app_iff.
  split; right; right; right.
  - left. simpl. auto 10.
  - right. simpl. auto.
Qed.

End PumpRendering.

Section Sampling.

(** The globals after the two sampling tasks, field by field. *)
Lemma sampled_fields (env : Env) (g : Globals) :
  currentTemperature (sampled env g)
  = (if dhtDue env g && negb (isnan (readTemperature env))
     then readTemperature env else currentTemperature g) /\
  currentHumidity (sampled env g)
  = (if dhtDue env g && negb (isnan (readHumidity env))
     then readHumidity env else currentHumidity g) /\
  currentSoilMoisture (sampled env g)
  = (if soilDue env g then soilPercent (analogRead env)
     else currentSoilMoisture g) /\
  lastDhtReadTime (sampled env g)
  = (if dhtDue env g then millis env else lastDhtReadTime g) /\
  lastSoilReadTime (sampled env g)
  = (if soilDue env g then millis env else lastSoilReadTime g) /\
  ruleNum (sampled env g) = ruleNum g.
Proof.
  unfold sampled, readDht, readSoil, globalsAfter, bind, gets, modify, when, ret,
    dhtDue, soilDue.
  simpl.
  destruct (ulong_sub (millis env) (lastDhtReadTime g) >=? dhtReadInterval)%Z;
    simpl;
    [ destruct (isnan (readTemperature env)), (isnan (readHumidity env)); simpl | ];
    destruct (ulong_sub (millis env) (lastSoilReadTime g) >=? soilReadInterval)%Z;
    simpl; repeat split.
Qed.

Lemma keepsClocks_seq (m k : M unit) :
  keepsClocks m -> keepsClocks k -> keepsClocks (m ;; k).
Proof.
  intros Hm Hk g. rewrite bind_globals.
  destruct (Hk (globalsAfter m g)) as (K1 & K2 & K3).
  destruct (Hm g) as (M1 & M2 & M3).
  rewrite K1, K2, K3. auto.
Qed.

Lemma displayUpdate_clocks : keepsClocks displayUpdate.
Proof.
  intros g. unfold displayUpdate, globalsAfter.
  destruct (updateValues _ _ _ _ _) as [d ops]. repeat split.
Qed.

Lemma runDefuzzify_clocks : keepsClocks runDefuzzify.
Proof.
  intros g. unfold runDefuzzify, globalsAfter, bind, emit, gets, modify. cbn [fst snd].
  destruct (defuzzify (fuzzy g) 1); repeat split.
Qed.

Lemma runInference_clocks (t h s : Q) : keepsClocks (runInference t h s).
Proof.
  unfold runInference.
  repeat first [ apply runDefuzzify_clocks | apply displayUpdate_clocks
               | apply keepsClocks_seq | (intros g; repeat split) ].
Qed.

Lemma waitForSensors_clocks : keepsClocks waitForSensors.
Proof.
  unfold waitForSensors. apply keepsClocks_seq.
  - apply displayUpdate_clocks.
  - intros g. repeat split.
Qed.

(** Task 3 and the time stamps. *)
Lemma processLogic_clocks (env : Env) (gs : Globals) :
  lastDhtReadTime (globalsAfter (processLogic env) gs) = lastDhtReadTime gs /\
  lastSoilReadTime (globalsAfter (processLogic env) gs) = lastSoilReadTime gs /\
  lastLogicDisplayTime (globalsAfter (processLogic env) gs)
  = (if logicDue env gs then millis env else lastLogicDisplayTime gs).
Proof.
  unfold globalsAfter. rewrite processLogic_unfold.
  destruct (logicDue env gs); [ | repeat split ].
  pose proof (waitForSensors_clocks (set_lastLogicDisplayTime (millis env) gs))
    as (W1 & W2 & W3).
  unfold globalsAfter in W1, W2, W3.
  destruct (currentTemperature gs) as [| t]; [ repeat split; assumption |].
  destruct (currentHumidity gs) as [| h]; [ repeat split; assumption |].
  destruct (currentSoilMoisture gs) as [| s]; [ repeat split; assumption |].
  pose proof (runInference_clocks t h s (set_lastLogicDisplayTime (millis env) gs))
    as (R1 & R2 & R3).
  unfold globalsAfter in R1, R2, R3.
  repeat split; assumption.
Qed.

(** The stored readings and the time stamps after one pass of [loop]. *)
Lemma loop_fields (env : Env) (g : Globals) :
  currentTemperature (globalsAfter (loop env) g)
  = (if dhtDue env g && negb (isnan (readTemperature env))
     then readTemperature env else currentTemperature g) /\
  currentHumidity (globalsAfter (loop env) g)
  = (if dhtDue env g && negb (isnan (readHumidity env))
     then readHumidity env else currentHumidity g) /\
  currentSoilMoisture (globalsAfter (loop env) g)
  = (if soilDue env g then soilPercent (analogRead env)
     else currentSoilMoisture g) /\
  lastDhtReadTime (globalsAfter (loop env) g)
  = (if dhtDue env g then millis env else lastDhtReadTime g) /\
  lastSoilReadTime (globalsAfter (loop env) g)
  = (if soilDue env g then millis env else lastSoilReadTime g) /\
  lastLogicDisplayTime (globalsAfter (loop env) g)
  = (if logicDue env g then millis env else lastLogicDisplayTime g).
Proof.
  rewrite loop_globals.
  destruct (processLogic_effect env (sampled env g)) as (_ & _ & -> & -> & ->).
  destruct (processLogic_clocks env (sampled env g)) as (-> & -> & ->).
  destruct (sampled_fields env g) as (-> & -> & -> & -> & -> & _).
  pose proof (sampling_is_silent env g) as (_ & _ & _ & _ & Sl).
  unfold logicDue. rewrite Sl. repeat split.
Qed.

End Sampling.

Section LoopRuns.

Lemma soilPercent_percentage (raw : Z) :
  (0 <= raw)%Z -> exists q, soilPercent raw = Fin q /\ 0 <= q <= 100.
Proof.
  intros H. destruct (Z_lt_le_dec raw 4095) as [Lt | Ge].
  - pose proof soilCheck_all as A. rewrite forallb_forall in A.
    assert (R : (0 <= raw <= 4095)%Z) by lia.
    specialize (A raw (adcReadings_complete raw R)).
    unfold soilCheck in A. destruct (soilPercent raw) as [| q]; [discriminate |].
    apply andb_true_iff in A. destruct A as [A _].
    apply andb_true_iff in A. destruct A as [A1 A2].
    apply Qle_bool_iff in A1, A2. exists q. auto.
  - exists 0. split; [ | lra ].
    unfold soilPercent.
    replace (raw >=? 4095)%Z with true by (symmetry; apply Z.geb_le; lia).
    vm_compute. reflexivity.
Qed.

Lemma allValid_loop (env : Env) (g : Globals) :
  adcValid env -> allValid g = true -> allValid (globalsAfter (loop env) g) = true.
Proof.
  unfold allValid. intros Hadc.
  destruct (soilPercent_percentage _ Hadc) as (q & Eq & _).
  destruct (loop_fields env g) as (-> & -> & -> & _). rewrite Eq.
  destruct (currentTemperature g), (currentHumidity g), (currentSoilMoisture g);
    try discriminate; intros _.
  destruct (dhtDue env g), (soilDue env g), (readTemperature env), (readHumidity env);
    reflexivity.
Qed.

Lemma allValid_sampled (env : Env) (g : Globals) :
  adcValid env -> allValid g = true -> allValid (sampled env g) = true.
Proof.
  unfold allValid. intros Hadc.
  destruct (soilPercent_percentage _ Hadc) as (q & Eq & _).
  destruct (sampled_fields env g) as (-> & -> & -> & _). rewrite Eq.
  destruct (currentTemperature g), (currentHumidity g), (currentSoilMoisture g);
    try discriminate; intros _.
  destruct (dhtDue env g), (soilDue env g), (readTemperature env), (readHumidity env);
    reflexivity.
Qed.

Lemma allValid_run (envs : list Env) (g : Globals) :
  Forall adcValid envs -> allValid g = true -> allValid (runLoop envs g) = true.
Proof.
  revert g. induction envs as [| env envs IH]; intros g F H; simpl; trivial.
  inversion F; subst. apply IH; trivial. now apply allValid_loop.
Qed.

(** X1.  Once the three stored readings are valid they stay valid over
    every later pass of [loop], whatever the sensors return (a NaN reading
    of the DHT is dropped and the old value kept), so every later pass in
    which task 3 is due runs the inference.  The ADC readings are taken to
    be non-negative. *)
Theorem valid_readings_are_never_lost (envs : list Env) (g : Globals) :
  allValid g = true ->
  Forall adcValid envs ->
  allValid (runLoop envs g) = true /\
  (forall env,
      isnan (readTemperature env) = true ->
      currentTemperature (globalsAfter (loop env) (runLoop envs g))
      = currentTemperature (runLoop envs g)) /\
  (forall env,
      isnan (readHumidity env) = true ->
      currentHumidity (globalsAfter (loop env) (runLoop envs g))
      = currentHumidity (runLoop envs g)) /\
  (forall env,
      adcValid env ->
      logicDue env (runLoop envs g) = true ->
      exists t h s,
        engineCalls (eventsOf (loop env) (runLoop envs g)) = inferenceCalls t h s).
Proof.
  intros H F. pose proof (allValid_run envs g F H) as Hr.
  split; [exact Hr |].
  split.
  { intros env Hn. destruct (loop_fields env (runLoop envs g)) as (-> & _).
    rewrite Hn, andb_false_r. reflexivity. }
  split.
  { intros env Hn. destruct (loop_fields env (runLoop envs g)) as (_ & -> & _).
    rewrite Hn, andb_false_r. reflexivity. }
  intros env Hadc Due.
  pose proof (allValid_sampled env _ Hadc Hr) as Hs.
  rewrite loop_events.
  destruct (processLogic_effect env (sampled env (runLoop envs g))) as (-> & _).
  pose proof (sampling_is_silent env (runLoop envs g)) as (_ & _ & _ & _ & Sl).
  replace (logicDue env (sampled env (runLoop envs g))) with true
    by (unfold logicDue in *; now rewrite Sl).
  unfold allValid in Hs.
  destruct (currentTemperature (sampled env (runLoop envs g))) as [| t];
    [discriminate |].
  destruct (currentHumidity (sampled env (runLoop envs g))) as [| h];
    [discriminate |].
  destruct (currentSoilMoisture (sampled env (runLoop envs g))) as [| s];
    [discriminate |].
  now exists t, h, s.
Qed.

Lemma valid_readings_are_never_lost_witness :
  allValid (set_currentSoilMoisture (Fin 10)
             (set_currentHumidity (Fin 40)
               (set_currentTemperature (Fin 21) (configured 11 Midpoint)))) = true /\
  Forall adcValid [mkEnv 2000 NaN NaN 4095; mkEnv 4000 NaN (Fin 50) 0] /\
  allValid (runLoop [mkEnv 2000 NaN NaN 4095; mkEnv 4000 NaN (Fin 50) 0]
             (set_currentSoilMoisture (Fin 10)
               (set_currentHumidity (Fin 40)
                 (set_currentTemperature (Fin 21) (configured 11 Midpoint))))) = true.
Proof.
  assert (F : Forall adcValid [mkEnv 2000 NaN NaN 4095; mkEnv 4000 NaN (Fin 50) 0])
    by (repeat constructor; unfold adcValid; simpl; lia).
  split; [reflexivity |].
  split; [exact F |].
  apply (valid_readings_are_never_lost
           [mkEnv 2000 NaN NaN 4095; mkEnv 4000 NaN (Fin 50) 0]); [reflexivity | exact F].
Defined.

Lemma soilInRange_soilPercent (raw : Z) : (0 <= raw)%Z -> soilInRange (soilPercent raw).
Proof.
  intros H. destruct (soilPercent_percentage raw H) as (q & -> & R). exact R.
Qed.

Lemma soilInRange_loop (env : Env) (g : Globals) :
  adcValid env ->
  soilInRange (currentSoilMoisture g) ->
  soilInRange (currentSoilMoisture (globalsAfter (loop env) g)).
Proof.
  intros Hadc H. destruct (loop_fields env g) as (_ & _ & -> & _).
  destruct (soilDue env g); trivial.
  now apply soilInRange_soilPercent.
Qed.

Lemma soilInRange_run (envs : list Env) (g : Globals) :
  Forall adcValid envs ->
  soilInRange (currentSoilMoisture g) ->
  soilInRange (currentSoilMoisture (runLoop envs g)).
Proof.
  revert g. induction envs as [| env envs IH]; intros g F H; simpl; trivial.
  inversion F; subst. apply IH; trivial. now apply soilInRange_loop.
Qed.

(** X2.  If the stored soil moisture is unset or within [[0,100]], it is so
    after every run of [loop] over non-negative ADC readings, and every
    value then handed to the engine as input 3 lies in [[0,100]]. *)
Theorem soil_input_is_a_percentage (envs : list Env) (g : Globals) :
  soilInRange (currentSoilMoisture g) ->
  Forall adcValid envs ->
  soilInRange (currentSoilMoisture (runLoop envs g)) /\
  (forall env x,
      adcValid env ->
      In (call_setInput 3 x) (engineCalls (eventsOf (loop env) (runLoop envs g))) ->
      0 <= x <= 100).
Proof.
  intros H F. pose proof (soilInRange_run envs g F H) as Hr.
  split; [exact Hr |].
  intros env x Hadc.
  rewrite loop_events.
  destruct (processLogic_effect env (sampled env (runLoop envs g))) as (-> & _).
  assert (Hs : soilInRange (currentSoilMoisture (sampled env (runLoop envs g)))).
  { destruct (sampled_fields env (runLoop envs g)) as (_ & _ & -> & _).
    destruct (soilDue env (runLoop envs g)); trivial.
    now apply soilInRange_soilPercent. }
  destruct (logicDue env (sampled env (runLoop envs g))); [ | contradiction ].
  destruct (currentTemperature (sampled env (runLoop envs g))) as [| t];
    [contradiction |].
  destruct (currentHumidity (sampled env (runLoop envs g))) as [| h];
    [contradiction |].
  destruct (currentSoilMoisture (sampled env (runLoop envs g))) as [| s];
    [contradiction |].
  simpl. intros [E | [E | [E | [E | [E | []]]]]]; try discriminate.
  injection E as <-. exact Hs.
Qed.

Lemma soil_input_is_a_percentage_witness :
  soilInRange (currentSoilMoisture (configured 11 Midpoint)) /\
  Forall adcValid [mkEnv 600 NaN NaN 5000; mkEnv 1200 NaN NaN 17] /\
  soilInRange (currentSoilMoisture
                 (runLoop [mkEnv 600 NaN NaN 5000; mkEnv 1200 NaN NaN 17]
                          (configured 11 Midpoint))).
Proof.
  assert (S0 : soilInRange (currentSoilMoisture (configured 11 Midpoint)))
    by exact I.
  assert (F : Forall adcValid [mkEnv 600 NaN NaN 5000; mkEnv 1200 NaN NaN 17])
    by (repeat constructor; unfold adcValid; simpl; lia).
  split; [exact S0 |].
  split; [exact F |].
  exact (proj1 (soil_input_is_a_percentage
                  [mkEnv 600 NaN NaN 5000; mkEnv 1200 NaN NaN 17] _ S0 F)).
Defined.

End LoopRuns.

Section Clocks.

Lemma ulong_sub_same (m : Z) : ulong_sub m m = 0%Z.
Proof. unfold ulong_sub. now rewrite Z.sub_diag. Qed.

Lemma ulong_sub_elapsed (last elapsed : Z) :
  (0 <= elapsed < 2 ^ 32)%Z ->
  ulong_sub ((last + elapsed) mod 2 ^ 32) last = elapsed.
Proof.
  intros H. unfold ulong_sub.
  rewrite Zminus_mod_idemp_l.
  replace (last + elapsed - last)%Z with elapsed by lia.
  now apply Z.mod_small.
Qed.

(** A pass in which no task is due does nothing. *)
Lemma loop_idle (env : Env) (g : Globals) :
  dhtDue env g = false -> soilDue env g = false -> logicDue env g = false ->
  loop env g = (tt, g, []).
Proof.
  unfold dhtDue, soilDue, logicDue. intros Hd Hs Hl.
  unfold loop, readDht, readSoil, processLogic, bind, gets, when, ret.
  cbn [fst snd]. rewrite Hd. cbn [fst snd]. rewrite Hs. cbn [fst snd].
  rewrite Hl. reflexivity.
Qed.

(** X3.  A second pass of [loop] at the same [millis()] value does
    nothing: every task that ran has stamped the current time, so none is
    due again, no event is emitted and no global changes. *)
Theorem loop_twice_at_same_instant (env : Env) (g : Globals) :
  loop env (globalsAfter (loop env) g) = (tt, globalsAfter (loop env) g, []).
Proof.
  destruct (loop_fields env g) as (_ & _ & _ & Hd & Hs & Hl).
  apply loop_idle.
  - unfold dhtDue in *. rewrite Hd.
    destruct (ulong_sub (millis env) (lastDhtReadTime g) >=? dhtReadInterval)%Z eqn:E;
      [now rewrite ulong_sub_same | exact E].
  - unfold soilDue in *. rewrite Hs.
    destruct (ulong_sub (millis env) (lastSoilReadTime g) >=? soilReadInterval)%Z eqn:E;
      [now rewrite ulong_sub_same | exact E].
  - unfold logicDue in *. rewrite Hl.
    destruct (ulong_sub (millis env) (lastLogicDisplayTime g) >=? logicDisplayInterval)%Z
      eqn:E; [now rewrite ulong_sub_same | exact E].
Qed.

(** X4.  The interval tests survive the overflow of [millis()]: when the
    clock has advanced by [elapsed] (below 2^32) since a task's time stamp,
    wrapping around or not, the task is due exactly when [elapsed] has
    reached its interval (2000, 500 and 1000 ms). *)
Theorem due_tests_survive_overflow (elapsed : Z) (env : Env) (g : Globals) :
  (0 <= elapsed < 2 ^ 32)%Z ->
  (millis env = ((lastDhtReadTime g + elapsed) mod 2 ^ 32)%Z ->
   dhtDue env g = (elapsed >=? 2000)%Z) /\
  (millis env = ((lastSoilReadTime g + elapsed) mod 2 ^ 32)%Z ->
   soilDue env g = (elapsed >=? 500)%Z) /\
  (millis env = ((lastLogicDisplayTime g + elapsed) mod 2 ^ 32)%Z ->
   logicDue env g = (elapsed >=? 1000)%Z).
Proof.
  intros H. unfold dhtDue, soilDue, logicDue.
  repeat split; intros ->; now rewrite ulong_sub_elapsed.
Qed.

Lemma due_tests_survive_overflow_witness :
  (0 <= 600 < 2 ^ 32)%Z /\
  soilDue (mkEnv 304 NaN NaN 0)
          (set_lastSoilReadTime 4294967000 (configured 11 Midpoint)) = true.
Proof.
  assert (R : (0 <= 600 < 2 ^ 32)%Z) by lia.
  split; [exact R |].
  apply (proj1 (proj2 (due_tests_survive_overflow 600 (mkEnv 304 NaN NaN 0)
                         (set_lastSoilReadTime 4294967000 (configured 11 Midpoint)) R))).
  reflexivity.
Defined.

End Clocks.

Section RuleNumbers.

(** One call of [addRule]: either dropped, or one rule appended under the
    current number. *)
Lemma addRule_step (t h s : option FuzzySet) (o : FuzzySet) (g : Globals) :
  (namesInput (t, h, s, o) = false /\ globalsAfter (addRule t h s o) g = g) \/
  (namesInput (t, h, s, o) = true /\
   exists a,
     globalsAfter (addRule t h s o) g
     = set_fuzzy (addFuzzyRule (fuzzy g) (mkFuzzyRule (ruleNum g) a o))
                 (set_ruleNum (ruleNum g + 1) g)).
Proof.
  destruct t, h, s;
    [ right; split; [reflexivity | eexists; reflexivity] .. | left; split; reflexivity ].
Qed.

Lemma addRules_cons (c : RuleCall) (calls : list RuleCall) (g : Globals) :
  globalsAfter (addRules (c :: calls)) g
  = globalsAfter (addRules calls)
                 (globalsAfter (let '(t, h, s, o) := c in addRule t h s o) g).
Proof.
  destruct c as [[[t h] s] o]. simpl addRules. now rewrite bind_globals.
Qed.

Lemma seq_cong (a m m' : M unit) :
  (forall g, globalsAfter m g = globalsAfter m' g) ->
  forall g, globalsAfter (a ;; m) g = globalsAfter (a ;; m') g.
Proof. intros H g. rewrite !bind_globals. apply H. Qed.

Lemma seq_ret (m : M unit) (g : Globals) :
  globalsAfter m g = globalsAfter (m ;; ret tt) g.
Proof. rewrite bind_globals. reflexivity. Qed.

Lemma setupFuzzyRules_calls (g : Globals) :
  globalsAfter setupFuzzyRules g = globalsAfter (addRules sketchRules) g.
Proof.
  revert g. unfold setupFuzzyRules, sketchRules, addRules. cbn [fold_right].
  do 14 apply seq_cong.
  intros g. apply seq_ret.
Qed.

(** X5.  Over any sequence of [addRule] calls the rules are appended in
    call order and numbered consecutively from the current rule counter;
    a call without input set adds nothing and uses no number; the
    consequents are the output sets of the calls that name an input; the
    engine's variables are not touched.  [setupFuzzyRules] is such a
    sequence of 15 calls. *)
Theorem addRules_numbering (calls : list RuleCall) (g : Globals) :
  ruleNum (globalsAfter (addRules calls) g)
  = (ruleNum g + Z.of_nat (List.length (filter namesInput calls)))%Z /\
  (exists new,
      fuzzyRules (fuzzy (globalsAfter (addRules calls) g)) = fuzzyRules (fuzzy g) ++ new /\
      List.map ruleIndex new
      = List.map (fun i => (ruleNum g + Z.of_nat i)%Z)
                 (seq 0 (List.length (filter namesInput calls))) /\
      List.map consequent new = List.map snd (filter namesInput calls)) /\
  fuzzyInputs (fuzzy (globalsAfter (addRules calls) g)) = fuzzyInputs (fuzzy g) /\
  fuzzyOutputs (fuzzy (globalsAfter (addRules calls) g)) = fuzzyOutputs (fuzzy g) /\
  globalsAfter setupFuzzyRules g = globalsAfter (addRules sketchRules) g.
Proof.
  split; [ | split; [ | split; [ | split ] ] ].
  5: { apply setupFuzzyRules_calls. }
  all: revert g; induction calls as [| c calls IH]; intros g.
  - change (ruleNum g = (ruleNum g + 0)%Z). lia.
  - rewrite addRules_cons. destruct c as [[[t h] s] o].
    destruct (addRule_step t h s o g) as [[N ->] | [N (a & ->)]].
    + rewrite IH. cbn [filter]. rewrite N. reflexivity.
    + rewrite IH. cbn [filter]. rewrite N. simpl List.length. simpl ruleNum.
      rewrite Nat2Z.inj_succ. lia.
  - exists []. simpl. now rewrite app_nil_r.
  - rewrite addRules_cons. destruct c as [[[t h] s] o].
    destruct (addRule_step t h s o g) as [[N ->] | [N (a & ->)]].
    + cbn [filter]. rewrite N. apply IH.
    + destruct (IH (set_fuzzy (addFuzzyRule (fuzzy g) (mkFuzzyRule (ruleNum g) a o))
                              (set_ruleNum (ruleNum g + 1) g)))
        as (new & E1 & E2 & E3).
      exists (mkFuzzyRule (ruleNum g) a o :: new).
      cbn [filter]. rewrite N. simpl List.length.
      split; [ | split ].
      * rewrite E1. simpl. now rewrite <- app_assoc.
      * simpl. rewrite E2. simpl ruleNum. f_equal; [f_equal; lia |].
        rewrite <- seq_shift, List.map_map.
        apply List.map_ext. intros i. lia.
      * simpl. now rewrite E3.
  - reflexivity.
  - rewrite addRules_cons. destruct c as [[[t h] s] o].
    destruct (addRule_step t h s o g) as [[N ->] | [N (a & ->)]]; now rewrite IH.
  - reflexivity.
  - rewrite addRules_cons. destruct c as [[[t h] s] o].
    destruct (addRule_step t h s o g) as [[N ->] | [N (a & ->)]]; now rewrite IH.
Qed.

End RuleNumbers.

Section Settled.

(** A float minus itself is zero (NaN for an infinity or NaN). *)
Lemma SFsub_diag (x : spec_float) :
  SFsub 24 128 x x = S754_nan \/ exists s, SFsub 24 128 x x = S754_zero s.
Proof.
  destruct x as [s | s | | s m e].
  - right. destruct s; eexists; reflexivity.
  - left. destruct s; reflexivity.
  - left. reflexivity.
  - right. exists false. unfold SFsub, shl_align.
    rewrite Z.min_id, Z.sub_diag. cbn [fst]. reflexivity.
Qed.

(** A value compared with itself is below both thresholds. *)
Lemma needsRedraw_same (q : Q) :
  needsRedraw (Fin q) (Fin q) (5 # 100) = false /\
  needsRedraw (Fin q) (Fin q) (5 # 10) = false.
Proof.
  unfold needsRedraw, fgt, fabs, fsub. cbn [isnan orb].
  destruct (SFsub_diag (ieee (Fin q))) as [-> | [s ->]];
    split; vm_compute; reflexivity.
Qed.

Lemma binary_round_aux_sign (prec emax : Z) (m e : Z) (l : location) :
  signClear (binary_round_aux prec emax false m e l) = true.
Proof.
  unfold binary_round_aux.
  destruct (shr_fexp prec emax m e l) as [mrs' e'].
  destruct (shr_fexp prec emax _ e' loc_Exact) as [mrs'' e''].
  destruct (shr_m mrs''); trivial.
  destruct (Z.leb e'' (emax - prec)); reflexivity.
Qed.

Lemma binary32_sign (q : Q) : 0 <= q -> signClear (binary32 q) = true.
Proof.
  intros H. destruct q as [n d]. unfold binary32. cbn [Qnum Qden].
  assert (N : (0 <= n)%Z) by (unfold Qle in H; simpl in H; lia).
  destruct n as [| p | p]; [ reflexivity | | lia ].
  unfold integer, SFdiv.
  destruct (SFdiv_core_binary 24 128 (Z.pos p) 0 (Z.pos d) 0) as [[mz ez] lz].
  apply binary_round_aux_sign.
Qed.

Lemma to_double_sign (x : spec_float) : signClear x = true -> signClear (to_double x) = true.
Proof.
  destruct x as [s | s | | s m e]; trivial.
  cbn [signClear to_double]. intros H. apply negb_true_iff in H. subst s.
  unfold binary_round.
  destruct (shl_align m e _) as [mz ez].
  apply binary_round_aux_sign.
Qed.

(** A pump power that is not negative never compares equal to -999.9. *)
Lemma feq_nonneg (p : Q) : 0 <= p -> feq (Fin p) (-9999 # 10) = false.
Proof.
  intros H. unfold feq.
  pose proof (to_double_sign _ (binary32_sign p H)) as Sg.
  cbn [ieee].
  destruct (to_double (binary32 p)) as [s | s | | s m e]; cbn [signClear] in Sg;
    try (apply negb_true_iff in Sg; subst s); vm_compute; reflexivity.
Qed.

(** X6.  Once drawn, unchanged values are not drawn again: a second call
    of [updateValues] with the same four valid values makes no call on
    the display at all and leaves the stored previous values as the
    first call left them.  (The pump power is not negative, and the
    stored previous pump value does not compare equal to -999.9, as is
    the case of a display just constructed.) *)
Theorem updateValues_settles (d : FuzzyDisplay) (t h s p : Q) :
  0 <= p ->
  feq (prevPump d) (-9999 # 10) = false ->
  updateValues (fst (updateValues d (Fin t) (Fin h) (Fin s) (Fin p)))
               (Fin t) (Fin h) (Fin s) (Fin p)
  = (fst (updateValues d (Fin t) (Fin h) (Fin s) (Fin p)), []).
Proof.
  intros Hp Hd.
  destruct (updateValues_blocks d (Fin t) (Fin h) (Fin s) (Fin p)) as [E _].
  rewrite E. clear E.
  set (d' := mkFuzzyDisplay _ _ _ _).
  destruct (updateValues_blocks d' (Fin t) (Fin h) (Fin s) (Fin p)) as [E1 E2].
  assert (Rt : needsRedraw (Fin t) (prevTemp d') (5 # 100) = false).
  { subst d'. cbn [prevTemp].
    destruct (needsRedraw (Fin t) (prevTemp d) (5 # 100)) eqn:R; trivial.
    apply needsRedraw_same. }
  assert (Rh : needsRedraw (Fin h) (prevHumid d') (5 # 100) = false).
  { subst d'. cbn [prevHumid].
    destruct (needsRedraw (Fin h) (prevHumid d) (5 # 100)) eqn:R; trivial.
    apply needsRedraw_same. }
  assert (Rs : needsRedraw (Fin s) (prevSoil d') (5 # 100) = false).
  { subst d'. cbn [prevSoil].
    destruct (needsRedraw (Fin s) (prevSoil d) (5 # 100)) eqn:R; trivial.
    apply needsRedraw_same. }
  assert (Rp : needsRedraw (Fin p) (prevPump d') (5 # 10) = false).
  { subst d'. cbn [prevPump].
    destruct (needsRedraw (Fin p) (prevPump d) (5 # 10)) eqn:R; trivial.
    apply needsRedraw_same. }
  assert (Rb : feq (prevPump d') (-9999 # 10) = false).
  { subst d'. cbn [prevPump].
    destruct (needsRedraw (Fin p) (prevPump d) (5 # 10)); trivial.
    now apply feq_nonneg. }
  rewrite Rt, Rh, Rs, Rp in E1. rewrite Rt, Rh, Rs, Rp, Rb in E2. cbn [orb app] in E2.
  destruct (updateValues d' (Fin t) (Fin h) (Fin s) (Fin p)) as [d2 ops].
  cbn [fst snd] in E1, E2. subst d2 ops.
  destruct d' as [a b c e]. reflexivity.
Qed.

Lemma updateValues_settles_witness :
  0 <= 37 /\
  feq (prevPump (newFuzzyDisplay 5 22 4)) (-9999 # 10) = false /\
  updateValues (fst (updateValues (newFuzzyDisplay 5 22 4)
                                  (Fin 21) (Fin 40) (Fin 10) (Fin 37)))
               (Fin 21) (Fin 40) (Fin 10) (Fin 37)
  = (fst (updateValues (newFuzzyDisplay 5 22 4) (Fin 21) (Fin 40) (Fin 10) (Fin 37)), []).
Proof.
  assert (P : 0 <= 37) by lra.
  assert (D : feq (prevPump (newFuzzyDisplay 5 22 4)) (-9999 # 10) = false)
    by (vm_compute; reflexivity).
  split; [exact P |].
  split; [exact D |].
  exact (updateValues_settles (newFuzzyDisplay 5 22 4) 21 40 10 37 P D).
Defined.

End Settled.

Section Bar.

Lemma constrain_mono (p q : Q) :
  p <= q -> constrain p 0 100 <= constrain q 0 100.
Proof.
  intros H. unfold constrain.
  destruct (Qltb p 0) eqn:P0; [ apply Qltb_lt in P0 | apply Qltb_ge in P0 ];
    destruct (Qltb q 0) eqn:Q0; [ apply Qltb_lt in Q0 | apply Qltb_ge in Q0 | apply Qltb_lt in Q0 | apply Qltb_ge in Q0 ];
    try lra;
    destruct (Qltb 100 q) eqn:Q1; [ apply Qltb_lt in Q1 | apply Qltb_ge in Q1 | apply Qltb_lt in Q1 | apply Qltb_ge in Q1 ];
    try lra;
    destruct (Qltb 100 p) eqn:P1; [ apply Qltb_lt in P1 | apply Qltb_ge in P1 | apply Qltb_lt in P1 | apply Qltb_ge in P1 ];
    lra.
Qed.

Lemma to_long_floor (q : Q) : 0 <= q -> to_long q = Qfloor q.
Proof.
  intros H. unfold to_long, Qfloor. destruct q as [n d]. cbn [Qnum Qden].
  apply Z.quot_div_nonneg; [ | lia ].
  unfold Qle in H. simpl in H. lia.
Qed.

(** The bar is [140 * n / 100] wide, for the whole number [n] of percent
    in the constrained pump power. *)
Lemma barWidth_floor (p : Q) :
  barWidth (Fin p) = (Qfloor (constrain p 0 100) * 140 / 100)%Z /\
  (0 <= Qfloor (constrain p 0 100) <= 100)%Z.
Proof.
  pose proof (constrain_range p 0 100 ltac:(lra)) as [L U].
  assert (F0 : (0 <= Qfloor (constrain p 0 100))%Z).
  { change 0%Z with (Qfloor 0). now apply Qfloor_resp_le. }
  assert (F1 : (Qfloor (constrain p 0 100) <= 100)%Z).
  { change 100%Z with (Qfloor 100). now apply Qfloor_resp_le. }
  split; [ | lia ].
  unfold barWidth, map. rewrite to_long_floor by exact L.
  rewrite Z.quot_div_nonneg by lia.
  rewrite Z.add_0_r, Z.sub_0_r. reflexivity.
Qed.

(** X7.  The green bar follows the pump power: it never shrinks when the
    pump power grows, it is full (140 pixels) exactly from 100 % on and
    empty exactly below 1 %, its width being [140 * n / 100] for the
    whole number [n] of percent. *)
Theorem bar_follows_pump_power (p : Q) :
  (forall q, p <= q -> (barWidth (Fin p) <= barWidth (Fin q))%Z) /\
  (barWidth (Fin p) = 140%Z <-> 100 <= p) /\
  (barWidth (Fin p) = 0%Z <-> p < 1) /\
  barWidth (Fin p) = (Qfloor (constrain p 0 100) * 140 / 100)%Z.
Proof.
  destruct (barWidth_floor p) as [Ep Rp].
  pose proof (constrain_range p 0 100 ltac:(lra)) as [Lp Up].
  split.
  { intros q H. destruct (barWidth_floor q) as [Eq _]. rewrite Ep, Eq.
    apply Z.div_le_mono; [lia |].
    apply Z.mul_le_mono_nonneg_r; [lia |].
    apply Qfloor_resp_le. now apply constrain_mono. }
  split.
  { rewrite Ep. split.
    - intros H.
      assert (N : (100 <= Qfloor (constrain p 0 100))%Z).
      { destruct (Z_lt_le_dec (Qfloor (constrain p 0 100)) 100) as [Lt | Ge]; trivial.
        assert (Qfloor (constrain p 0 100) * 140 / 100 <= 99 * 140 / 100)%Z
          by (apply Z.div_le_mono; lia).
        change (99 * 140 / 100)%Z with 138%Z in *. lia. }
      assert (C : 100 <= constrain p 0 100).
      { pose proof (Qfloor_le (constrain p 0 100)) as Fl.
        assert (inject_Z 100 <= inject_Z (Qfloor (constrain p 0 100)))
          by (rewrite <- Zle_Qle; exact N).
        change (inject_Z 100) with 100 in *. lra. }
      unfold constrain in C.
      destruct (Qltb p 0) eqn:P0; [ lra |].
      destruct (Qltb 100 p) eqn:P1; [ apply Qltb_lt in P1; lra | exact C ].
    - intros H.
      assert (C : constrain p 0 100 == 100).
      { unfold constrain.
        destruct (Qltb p 0) eqn:P0; [ apply Qltb_lt in P0; lra |].
        destruct (Qltb 100 p) eqn:P1; [ reflexivity | apply Qltb_ge in P1; lra ]. }
      rewrite C. reflexivity. }
  split.
  { rewrite Ep. split.
    - intros H.
      assert (N : (Qfloor (constrain p 0 100) < 1)%Z).
      { destruct (Z_lt_le_dec (Qfloor (constrain p 0 100)) 1) as [Lt | Ge]; trivial.
        assert (1 * 140 / 100 <= Qfloor (constrain p 0 100) * 140 / 100)%Z
          by (apply Z.div_le_mono; lia).
        change (1 * 140 / 100)%Z with 1%Z in *. lia. }
      assert (C : constrain p 0 100 < 1).
      { pose proof (Qlt_floor (constrain p 0 100)) as Fl.
        assert (inject_Z (Qfloor (constrain p 0 100) + 1) <= inject_Z 1)
          by (rewrite <- Zle_Qle; lia).
        change (inject_Z 1) with 1 in *. lra. }
      unfold constrain in C.
      destruct (Qltb p 0) eqn:P0; [ apply Qltb_lt in P0; lra |].
      destruct (Qltb 100 p) eqn:P1; [ lra | exact C ].
    - intros H.
      assert (N : (Qfloor (constrain p 0 100) <= 0)%Z).
      { change 0%Z with (Qfloor 0).
        assert (C : constrain p 0 100 < 1).
        { unfold constrain.
          destruct (Qltb p 0) eqn:P0; [ lra |].
          destruct (Qltb 100 p) eqn:P1; [ apply Qltb_lt in P1; lra | exact H ]. }
        destruct (Z_lt_le_dec 0 (Qfloor (constrain p 0 100))) as [Lt | Ge];
          [ | exact Ge ].
        pose proof (Qfloor_le (constrain p 0 100)) as Fl.
        assert (inject_Z 1 <= inject_Z (Qfloor (constrain p 0 100)))
          by (rewrite <- Zle_Qle; lia).
        change (inject_Z 1) with 1 in *. lra. }
      replace (Qfloor (constrain p 0 100)) with 0%Z by lia. reflexivity. }
  exact Ep.
Qed.

End Bar.

Section SensorFailure.

Lemma engineCalls_nil_app (es fs : list Event) :
  engineCalls es = [] -> engineCalls fs = [] -> engineCalls (es ++ fs) = [].
Proof. intros H1 H2. now rewrite engineCalls_app, H1, H2. Qed.

(** One pass in which a DHT value is missing and stays missing. *)
Lemma loop_without_value (v : DhtValue) (env : Env) (g : Globals) :
  isnan (storedValue v g) = true ->
  isnan (sensorValue v env) = true ->
  isnan (storedValue v (globalsAfter (loop env) g)) = true /\
  engineCalls (eventsOf (loop env) g) = [] /\
  fuzzy (globalsAfter (loop env) g) = fuzzy g /\
  currentPumpPower (globalsAfter (loop env) g) = currentPumpPower g.
Proof.
  intros Hg He.
  assert (Hs : isnan (storedValue v (sampled env g)) = true).
  { destruct (sampled_fields env g) as (Et & Eh & _).
    destruct v; cbn [storedValue sensorValue] in *.
    - rewrite Et, He, andb_false_r. exact Hg.
    - rewrite Eh, He, andb_false_r. exact Hg. }
  assert (Hn : isnan (currentTemperature (sampled env g))
               || isnan (currentHumidity (sampled env g))
               || isnan (currentSoilMoisture (sampled env g)) = true).
  { destruct v; cbn [storedValue] in Hs; rewrite Hs;
      [ reflexivity | rewrite orb_true_r; reflexivity ]. }
  destruct (processLogic_effect env (sampled env g)) as (Pc & Pn & Pt & Ph & _).
  destruct (Pn Hn) as [Pf Pp].
  pose proof (sampling_is_silent env g) as (_ & Sf & _ & Sp & _).
  rewrite loop_events, loop_globals.
  split.
  { destruct v; cbn [storedValue] in *; [ now rewrite Pt | now rewrite Ph ]. }
  split.
  { rewrite Pc. destruct (logicDue env (sampled env g)); trivial.
    destruct (currentTemperature (sampled env g)), (currentHumidity (sampled env g)),
             (currentSoilMoisture (sampled env g)); trivial; discriminate. }
  split; congruence.
Qed.

(** X8.  As long as the DHT driver has not delivered a temperature (or a
    humidity) since start-up, no pass of [loop] calls the engine: the
    stored value stays NaN, the engine object and the pump power stay as
    they were, whatever the other readings are. *)
Theorem no_inference_before_first_reading
        (v : DhtValue) (envs : list Env) (g : Globals) :
  isnan (storedValue v g) = true ->
  Forall (fun env => isnan (sensorValue v env) = true) envs ->
  isnan (storedValue v (runLoop envs g)) = true /\
  engineCalls (runEvents envs g) = [] /\
  fuzzy (runLoop envs g) = fuzzy g /\
  currentPumpPower (runLoop envs g) = currentPumpPower g.
Proof.
  intros Hg F. revert g Hg.
  induction F as [| env envs He F IH]; intros g Hg.
  - simpl. auto.
  - destruct (loop_without_value v env g Hg He) as (H1 & H2 & H3 & H4).
    destruct (IH _ H1) as (I1 & I2 & I3 & I4).
    cbn [runLoop fold_left runEvents].
    change (fold_left (fun g0 env0 => globalsAfter (loop env0) g0) envs
                      (globalsAfter (loop env) g))
      with (runLoop envs (globalsAfter (loop env) g)).
    split; [exact I1 |].
    split; [now apply engineCalls_nil_app |].
    split; congruence.
Qed.

Lemma no_inference_before_first_reading_witness :
  isnan (storedValue Humidity (configured 11 Midpoint)) = true /\
  Forall (fun env => isnan (sensorValue Humidity env) = true)
         [mkEnv 2000 (Fin 21) NaN 1500; mkEnv 4000 (Fin 22) NaN 1400] /\
  engineCalls (runEvents [mkEnv 2000 (Fin 21) NaN 1500; mkEnv 4000 (Fin 22) NaN 1400]
                         (configured 11 Midpoint)) = [].
Proof.
  assert (H0 : isnan (storedValue Humidity (configured 11 Midpoint)) = true)
    by (vm_compute; reflexivity).
  assert (F : Forall (fun env => isnan (sensorValue Humidity env) = true)
                     [mkEnv 2000 (Fin 21) NaN 1500; mkEnv 4000 (Fin 22) NaN 1400])
    by (repeat constructor).
  split; [exact H0 |].
  split; [exact F |].
  exact (proj1 (proj2 (no_inference_before_first_reading Humidity _ _ H0 F))).
Defined.

End SensorFailure.

Section DisplayRefresh.

Lemma tftCalls_app (es fs : list Event) :
  tftCalls (es ++ fs) = tftCalls es ++ tftCalls fs.
Proof. unfold tftCalls. apply flat_map_app. Qed.

Lemma tftCalls_tft (ops : list TftOp) : tftCalls (List.map OnTft ops) = ops.
Proof. induction ops as [| op ops IH]; simpl; [ | rewrite IH ]; reflexivity. Qed.

Lemma tftCalls_serial (ops : list SerialOp) : tftCalls (List.map OnSerial ops) = [].
Proof. induction ops; simpl; trivial. Qed.

Lemma quiet_seq (m k : M unit) : quiet m -> quiet k -> quiet (m ;; k).
Proof.
  intros Hm Hk g. rewrite bind_globals, bind_events, tftCalls_app.
  destruct (Hm g) as [M1 M2]. destruct (Hk (globalsAfter m g)) as [K1 K2].
  rewrite K1, M1, M2, K2. split; reflexivity.
Qed.

Lemma runSetInput_quiet (i : Z) (x : Q) : quiet (runSetInput i x).
Proof. intros g. split; reflexivity. Qed.

Lemma runFuzzify_quiet : quiet runFuzzify.
Proof. intros g. split; reflexivity. Qed.

Lemma runDefuzzify_quiet : quiet runDefuzzify.
Proof.
  intros g. unfold runDefuzzify, globalsAfter, eventsOf, bind, emit, gets, modify.
  cbn [fst snd].
  destruct (defuzzify (fuzzy g) 1); split; reflexivity.
Qed.

Lemma serialReport_quiet : quiet serialReport.
Proof. intros g. split; reflexivity. Qed.

Lemma displayUpdate_refreshes : refreshes displayUpdate.
Proof.
  intros g. unfold refreshed, displayUpdate, globalsAfter, eventsOf.
  destruct (updateValues (myDisplay g) (currentTemperature g) (currentHumidity g)
                         (currentSoilMoisture g) (currentPumpPower g)) as [d ops] eqn:E.
  cbn [fst snd myDisplay currentTemperature currentHumidity currentSoilMoisture
       currentPumpPower set_myDisplay].
  rewrite E, tftCalls_tft. split; reflexivity.
Qed.

Lemma refreshes_seq (m k : M unit) : quiet m -> refreshes k -> refreshes (m ;; k).
Proof.
  intros Hm Hk g. rewrite bind_globals, bind_events, tftCalls_app.
  destruct (Hm g) as [M1 M2]. destruct (Hk (globalsAfter m g)) as [K1 K2].
  rewrite M2, K1, K2, M1. split; reflexivity.
Qed.

Lemma runInference_refreshes (t h s : Q) : refreshes (runInference t h s).
Proof.
  unfold runInference.
  repeat first [ apply displayUpdate_refreshes
               | apply refreshes_seq
               | apply runSetInput_quiet | apply runFuzzify_quiet
               | apply runDefuzzify_quiet | apply serialReport_quiet ].
Qed.

Lemma emit_effect (e : Event) (g : Globals) :
  globalsAfter (emit e) g = g /\ eventsOf (emit e) g = [e].
Proof. split; reflexivity. Qed.

Lemma waitForSensors_refreshes : refreshes waitForSensors.
Proof.
  intros g. unfold waitForSensors. rewrite bind_globals, bind_events, tftCalls_app.
  cbv beta.
  rewrite (proj1 (emit_effect _ _)), (proj2 (emit_effect _ _)).
  cbn [tftCalls flat_map]. rewrite !app_nil_r.
  apply displayUpdate_refreshes.
Qed.

(** X9.  The display is driven by task 3 alone.  A pass of [loop] in which
    task 3 is due makes exactly one [updateValues] call, on the readings
    and the pump power the globals hold when the pass ends (so after the
    inference, when it ran); the display calls of the pass are the calls
    of that [updateValues].  A pass in which task 3 is not due emits
    nothing at all and leaves the display state alone. *)
Theorem display_shows_the_stored_values (env : Env) (g : Globals) :
  if logicDue env g
  then myDisplay (globalsAfter (loop env) g)
       = fst (refreshed (myDisplay g) (globalsAfter (loop env) g)) /\
       tftCalls (eventsOf (loop env) g)
       = snd (refreshed (myDisplay g) (globalsAfter (loop env) g))
  else myDisplay (globalsAfter (loop env) g) = myDisplay g /\
       eventsOf (loop env) g = [].
Proof.
  pose proof (sampling_is_silent env g) as (_ & _ & Sd & _ & Sl).
  rewrite loop_events, loop_globals.
  replace (logicDue env g) with (logicDue env (sampled env g))
    by (unfold logicDue; now rewrite Sl).
  rewrite <- Sd.
  generalize (sampled env g). clear. intros gs.
  pose proof (waitForSensors_refreshes (set_lastLogicDisplayTime (millis env) gs)) as W.
  unfold eventsOf, globalsAfter in *.
  rewrite processLogic_unfold.
  destruct (logicDue env gs); [ | split; reflexivity ].
  destruct (currentTemperature gs) as [| t]; [ exact W |].
  destruct (currentHumidity gs) as [| h]; [ exact W |].
  destruct (currentSoilMoisture gs) as [| s]; [ exact W |].
  pose proof (runInference_refreshes t h s (set_lastLogicDisplayTime (millis env) gs))
    as R.
  unfold eventsOf, globalsAfter in R. exact R.
Qed.

End DisplayRefresh.
